(** * ESP32 light-collection logger: a shallow embedding of [logger.py]

    The module globals of [logger.py] become one record [state]; every
    function of the module that the properties below talk about becomes a
    function on that record.  Three things of the Python run time are
    abstracted, and the abstraction is the same everywhere:

    - Python floats (the clock readings of [time.time()], the mean of the
      accumulator, [LIGHT_STEP]) are exact rationals of type [Q]; the one
      float operation of the module that can raise, the division of two
      integers whose quotient is out of the float range, raises in the
      model as well;
    - the builtin [int] on text is a parameter [int : string -> option Z]
      of the development ([None] stands for [ValueError]), so every
      theorem holds for whatever numerals the builtin accepts;
    - what the outside world decides (the clock, whether an I/O call
      raises, whether a join timed out) is an explicit argument of type
      [io], and what the program does to the outside world (LED, display,
      socket, threads) is appended to the [effects] trace of the state. *)

From Stdlib Require Import ZArith QArith Qround Qabs String Ascii List Bool Lia
  Lqa.
Import ListNotations.

Open Scope Z_scope.

(** ** Configuration constants *)

Definition DATA_THROTTLE : Q := 1 # 10.
Definition MATRIX_UPDATE_INTERVAL : Q := 4.
Definition MATRIX_HISTORY_SIZE : nat := 8.
Definition MAX_LIGHT_VALUE : Q := 4095.
Definition LIGHT_STEP : Q := MAX_LIGHT_VALUE / 8.

(** ** Python primitives used by the module *)

(** [a < b] on numbers. *)
Definition Qlt_bool (a b : Q) : bool := negb (Qle_bool b a).

(** [min(a, b)] and [max(a, b)]: the first argument wins a tie. *)
Definition py_min (a b : Q) : Q := if Qlt_bool b a then b else a.
Definition py_max (a b : Q) : Q := if Qlt_bool a b then b else a.

(** [int(x)] on a number: truncation toward zero. *)
Definition int_of_number (x : Q) : Z := Z.quot (Qnum x) (Zpos (Qden x)).

(** [s.split(sep)] for a one-character separator. *)
Fixpoint split (sep : ascii) (s : string) : list string :=
  match s with
  | EmptyString => [EmptyString]
  | String c rest =>
      if Ascii.eqb c sep then EmptyString :: split sep rest
      else match split sep rest with
           | [] => [String c EmptyString]
           | field :: fields => String c field :: fields
           end
  end.

(** [sum(l)] on a list of integers. *)
Definition sum (l : list Z) : Z := fold_right Z.add 0 l.

(** [d.append(x)] on a [deque(maxlen=MATRIX_HISTORY_SIZE)]: when the deque
    is full the leftmost item is discarded. *)
Definition deque_append (x : Z) (d : list Z) : list Z :=
  if (length d <? MATRIX_HISTORY_SIZE)%nat then d ++ [x] else tl d ++ [x].

(** The last [n] items of a list. *)
Definition lastn {A : Type} (n : nat) (l : list A) : list A :=
  skipn (length l - n) l.

(** ** Data *)

Inductive thread : Type := ListenerThread | MatrixThread | ResetThread.

(** One row handed to [csv.writer.writerow]. *)
Inductive csv_row : Type :=
| Header
| Data (timestamp : Q) (master_ip : string) (light_value : Z).

(** [(ip, port)] as returned by [recvfrom]. *)
Definition address : Type := (string * Z)%type.

(** What the program does to its collaborators, oldest first. *)
Inductive effect : Type :=
| ELedOn
| ELedOff
| ESleep (seconds : Q)
| EMatrixClear
| EMatrixDraw (columns : list Z)
| EJoin (t : thread) (timeout : Q) (timed_out : bool)
| EStart (t : thread)
| ESendto (payload : string)
| ECloseFile
| EPrint (text : string).

(** Places where a call into the operating system or a device may raise. *)
Inductive fault_point : Type :=
| F_matrix_clear
| F_matrix_draw
| F_open
| F_writerow
| F_close
| F_socket
| F_sendto (i : nat).

(** What the world answers during one call. *)
Record io : Type := mkIo {
  time_time : Q;
  datetime_now : Q;
  raises : fault_point -> bool;
  join_times_out : bool
}.

(** The module globals.  [log_file_handle] and [log_writer] are assigned
    together everywhere, so one field holds the rows written so far to the
    open file; [None] is Python's [None] for both. *)
Record state : Type := mkState {
  MATRIX_ENABLED : bool;
  listening_thread : option thread;
  stop_listening : bool;
  current_log_file : option Q;
  log_writer : option (list csv_row);
  reset_in_progress : bool;
  packet_queue : list (string * address);
  matrix_columns : list Z;
  last_matrix_update : Q;
  light_value_accumulator : list Z;
  packet_count : Z;
  last_process_time : Q;
  effects : list effect
}.

(** The values the module assigns at import time. *)
Definition initial_state (matrix_enabled : bool) : state :=
  {| MATRIX_ENABLED := matrix_enabled;
     listening_thread := None;
     stop_listening := false;
     current_log_file := None;
     log_writer := None;
     reset_in_progress := false;
     packet_queue := [];
     matrix_columns := [];
     last_matrix_update := 0;
     light_value_accumulator := [];
     packet_count := 0;
     last_process_time := 0;
     effects := [] |}.

(** Assignments to one global. *)
Definition set_listening_thread (v : option thread) (s : state) : state :=
  mkState (MATRIX_ENABLED s) v (stop_listening s) (current_log_file s)
    (log_writer s) (reset_in_progress s) (packet_queue s) (matrix_columns s)
    (last_matrix_update s) (light_value_accumulator s) (packet_count s)
    (last_process_time s) (effects s).

Definition set_stop_listening (v : bool) (s : state) : state :=
  mkState (MATRIX_ENABLED s) (listening_thread s) v (current_log_file s)
    (log_writer s) (reset_in_progress s) (packet_queue s) (matrix_columns s)
    (last_matrix_update s) (light_value_accumulator s) (packet_count s)
    (last_process_time s) (effects s).

Definition set_current_log_file (v : option Q) (s : state) : state :=
  mkState (MATRIX_ENABLED s) (listening_thread s) (stop_listening s) v
    (log_writer s) (reset_in_progress s) (packet_queue s) (matrix_columns s)
    (last_matrix_update s) (light_value_accumulator s) (packet_count s)
    (last_process_time s) (effects s).

Definition set_log_writer (v : option (list csv_row)) (s : state) : state :=
  mkState (MATRIX_ENABLED s) (listening_thread s) (stop_listening s)
    (current_log_file s) v (reset_in_progress s) (packet_queue s)
    (matrix_columns s) (last_matrix_update s) (light_value_accumulator s)
    (packet_count s) (last_process_time s) (effects s).

Definition set_reset_in_progress (v : bool) (s : state) : state :=
  mkState (MATRIX_ENABLED s) (listening_thread s) (stop_listening s)
    (current_log_file s) (log_writer s) v (packet_queue s) (matrix_columns s)
    (last_matrix_update s) (light_value_accumulator s) (packet_count s)
    (last_process_time s) (effects s).

Definition set_packet_queue (v : list (string * address)) (s : state) : state :=
  mkState (MATRIX_ENABLED s) (listening_thread s) (stop_listening s)
    (current_log_file s) (log_writer s) (reset_in_progress s) v
    (matrix_columns s) (last_matrix_update s) (light_value_accumulator s)
    (packet_count s) (last_process_time s) (effects s).

Definition set_matrix_columns (v : list Z) (s : state) : state :=
  mkState (MATRIX_ENABLED s) (listening_thread s) (stop_listening s)
    (current_log_file s) (log_writer s) (reset_in_progress s) (packet_queue s)
    v (last_matrix_update s) (light_value_accumulator s) (packet_count s)
    (last_process_time s) (effects s).

Definition set_last_matrix_update (v : Q) (s : state) : state :=
  mkState (MATRIX_ENABLED s) (listening_thread s) (stop_listening s)
    (current_log_file s) (log_writer s) (reset_in_progress s) (packet_queue s)
    (matrix_columns s) v (light_value_accumulator s) (packet_count s)
    (last_process_time s) (effects s).

Definition set_light_value_accumulator (v : list Z) (s : state) : state :=
  mkState (MATRIX_ENABLED s) (listening_thread s) (stop_listening s)
    (current_log_file s) (log_writer s) (reset_in_progress s) (packet_queue s)
    (matrix_columns s) (last_matrix_update s) v (packet_count s)
    (last_process_time s) (effects s).

Definition set_packet_count (v : Z) (s : state) : state :=
  mkState (MATRIX_ENABLED s) (listening_thread s) (stop_listening s)
    (current_log_file s) (log_writer s) (reset_in_progress s) (packet_queue s)
    (matrix_columns s) (last_matrix_update s) (light_value_accumulator s) v
    (last_process_time s) (effects s).

Definition set_last_process_time (v : Q) (s : state) : state :=
  mkState (MATRIX_ENABLED s) (listening_thread s) (stop_listening s)
    (current_log_file s) (log_writer s) (reset_in_progress s) (packet_queue s)
    (matrix_columns s) (last_matrix_update s) (light_value_accumulator s)
    (packet_count s) v (effects s).

(** One more entry of the effect trace. *)
Definition emit (x : effect) (s : state) : state :=
  mkState (MATRIX_ENABLED s) (listening_thread s) (stop_listening s)
    (current_log_file s) (log_writer s) (reset_in_progress s) (packet_queue s)
    (matrix_columns s) (last_matrix_update s) (light_value_accumulator s)
    (packet_count s) (last_process_time s) (effects s ++ [x]).

(** ** Statements that may raise

    An [action] is a statement: it returns normally or raises, and in both
    cases leaves a state behind.  [try_except] and [try_finally] are the
    two Python constructs of the module. *)

Inductive outcome : Type := Returned | Raised.

Definition action : Type := state -> outcome * state.

Definition skip : action := fun s => (Returned, s).

Definition exec (f : state -> state) : action := fun s => (Returned, f s).

Definition raise_when (b : bool) : action :=
  fun s => (if b then Raised else Returned, s).

Definition seq (a b : action) : action :=
  fun s =>
    match a s with
    | (Returned, s') => b s'
    | (Raised, s') => (Raised, s')
    end.

Definition try_except (body handler : action) : action :=
  fun s =>
    match body s with
    | (Returned, s') => (Returned, s')
    | (Raised, s') => handler s'
    end.

Definition try_finally (body final : action) : action :=
  fun s =>
    match body s with
    | (Returned, s') => final s'
    | (Raised, s') =>
        match final s' with
        | (_, s'') => (Raised, s'')
        end
    end.

Definition when (b : bool) (a : action) : action := if b then a else skip.

Declare Scope action_scope.
Delimit Scope action_scope with action.
Bind Scope action_scope with action.
Notation "a ;; b" := (seq a b) (at level 61, right associativity) : action_scope.

Definition print (text : string) : action := exec (emit (EPrint text)).
Definition sleep (seconds : Q) : action := exec (emit (ESleep seconds)).

(** ** map_value_to_height *)

Definition map_value_to_height (light_value : Q) : Z :=
  let light_value := py_max 0 (py_min MAX_LIGHT_VALUE light_value) in
  let height := int_of_number (light_value / LIGHT_STEP) in
  if 7 <? height then 7 else height.

(** ** Display *)

Definition update_led_matrix (e : io) : action :=
  fun s =>
    if negb (MATRIX_ENABLED s) then (Returned, s)
    else
      try_except
        (raise_when (raises e F_matrix_draw) ;;
         exec (fun s => emit (EMatrixDraw (matrix_columns s)) s))
        (print "Error updating LED matrix") s.

Definition clear_led_matrix (e : io) : action :=
  fun s =>
    if negb (MATRIX_ENABLED s) then (Returned, s)
    else
      try_except
        (raise_when (raises e F_matrix_clear) ;;
         exec (emit EMatrixClear) ;;
         exec (set_matrix_columns []) ;;
         exec (set_light_value_accumulator []))
        (print "Error clearing LED matrix") s.

(** ** Session log file *)

Definition create_new_log_file (e : io) : action :=
  (exec (set_current_log_file (Some (datetime_now e))) ;;
   raise_when (raises e F_open) ;;
   exec (set_log_writer (Some [])) ;;
   raise_when (raises e F_writerow) ;;
   exec (set_log_writer (Some [Header])))%action.

Definition close_log_file (e : io) : action :=
  fun s =>
    match log_writer s with
    | Some _ =>
        let s := if raises e F_close then s else emit ECloseFile s in
        (Returned, set_log_writer None s)
    | None => (Returned, s)
    end.

(** ** Throttled logger *)

Definition log_master_data (e : io) (master_ip : string) (light_value : Z)
    (s : state) : state :=
  let current_time := time_time e in
  if Qlt_bool (current_time - last_process_time s) DATA_THROTTLE then s
  else
    let s := set_last_process_time current_time s in
    let s := set_packet_count (packet_count s + 1) s in
    let s :=
      set_light_value_accumulator (light_value_accumulator s ++ [light_value]) s in
    match log_writer s with
    | Some rows =>
        if raises e F_writerow then emit (EPrint "Error logging data") s
        else
          set_log_writer
            (Some (rows ++ [Data (datetime_now e) master_ip light_value])) s
    | None => s
    end.

(** ** Aggregator *)

(** Where the quotient of two integers leaves the float range: [a / b] is
    the float nearest to the quotient, and a quotient of magnitude
    [2^1024 - 2^970] or more lies past the largest float. *)
Definition FLOAT_OVERFLOW : Q := inject_Z (2 ^ 1024 - 2 ^ 970).

(** [a / b] on two integers, [b] not zero; [None] is [OverflowError]. *)
Definition true_divide (a b : Z) : option Q :=
  let q := (inject_Z a / inject_Z b)%Q in
  if Qle_bool FLOAT_OVERFLOW (Qabs q) then None else Some q.

(** [sum(acc) / len(acc)], or [0] for the empty accumulator; [None] when
    the division raises. *)
Definition avg_light (acc : list Z) : option Q :=
  match acc with
  | [] => Some 0%Q
  | _ :: _ => true_divide (sum acc) (Z.of_nat (length acc))
  end.

(** The test that guards the body of the aggregation loop. *)
Definition fire_due (e : io) (s : state) : bool :=
  Qle_bool MATRIX_UPDATE_INTERVAL (time_time e - last_matrix_update s).

(** The [try] block of the loop of [matrix_update_thread].  The division
    comes first: when it raises, the accumulator has not been cleared,
    nothing has been appended and [last_matrix_update] is as it was. *)
Definition matrix_update_body (e : io) : action :=
  fun s =>
    if fire_due e s then
      match avg_light (light_value_accumulator s) with
      | Some avg =>
          let s := set_light_value_accumulator [] s in
          let height := map_value_to_height avg in
          let s :=
            set_matrix_columns (deque_append height (matrix_columns s)) s in
          let s := snd (update_led_matrix e s) in
          (Returned, set_last_matrix_update (time_time e) s)
      | None => (Raised, s)
      end
    else (Returned, s).

(** One pass through the body of [while not stop_listening] in
    [matrix_update_thread]: the [try] block and the [except] clause that
    prints the error. *)
Definition matrix_update_iteration (e : io) (s : state) : state :=
  snd (try_except (matrix_update_body e)
         (print "Matrix update thread error") s).

(** ** Reset command, stop and start *)

Fixpoint send_loop (e : io) (i n : nat) : action :=
  match n with
  | O => skip
  | S n' =>
      (raise_when (raises e (F_sendto i)) ;;
       exec (emit (ESendto "0,0,255,1")) ;;
       sleep (1 # 10) ;;
       send_loop e (S i) n')%action
  end.

Definition send_reset_command (e : io) : action :=
  (raise_when (raises e F_socket) ;; send_loop e 0 10)%action.

Definition stop_multicast_listener (e : io) : action :=
  (exec (set_stop_listening true) ;;
   (fun s =>
      match listening_thread s with
      | Some t =>
          (Returned,
           set_listening_thread None (emit (EJoin t 3 (join_times_out e)) s))
      | None => (Returned, s)
      end) ;;
   close_log_file e)%action.

Definition start_multicast_listener (e : io) : action :=
  (exec (set_stop_listening false) ;;
   exec (set_packet_count 0) ;;
   exec (set_last_process_time 0) ;;
   exec (set_last_matrix_update (time_time e)) ;;
   exec (set_packet_queue []) ;;
   clear_led_matrix e ;;
   create_new_log_file e ;;
   exec (set_listening_thread (Some ListenerThread)) ;;
   exec (emit (EStart ListenerThread)) ;;
   (fun s => when (MATRIX_ENABLED s) (exec (emit (EStart MatrixThread))) s))%action.

(** ** Reset orchestrator *)

Definition yellow_led_on : action := exec (emit ELedOn).
Definition yellow_led_off : action := exec (emit ELedOff).

(** The body of [handle_reset_sequence], run without interruption.  [e i]
    is the world's answer during line [i] of the [try] block. *)
Definition handle_reset_sequence (e : nat -> io) : action :=
  try_finally
    (try_except
       (yellow_led_on ;;
        stop_multicast_listener (e 1%nat) ;;
        clear_led_matrix (e 2%nat) ;;
        send_reset_command (e 3%nat) ;;
        sleep 3 ;;
        yellow_led_off ;;
        sleep 5 ;;
        start_multicast_listener (e 7%nat))
       (print "Error during reset"))
    (exec (set_reset_in_progress false)).

(** [button_pressed_handler]: the boolean tells whether a reset thread was
    started. *)
Definition button_pressed_handler (s : state) : bool * state :=
  let s := emit ELedOn s in
  let s := emit (ESleep (1 # 10)) s in
  let s := emit ELedOff s in
  if reset_in_progress s then (false, s)
  else
    let s := set_reset_in_progress true s in
    (true, emit (EStart ResetThread) s).

(** The same body, one line at a time, for a reset thread that runs beside
    the other threads.  The program counter of the thread is the number of
    the line it executes next; line 8 is the [finally] clause. *)
Definition reset_line (pc : nat) (e : io) : action :=
  match pc with
  | 0%nat => yellow_led_on
  | 1%nat => stop_multicast_listener e
  | 2%nat => clear_led_matrix e
  | 3%nat => send_reset_command e
  | 4%nat => sleep 3
  | 5%nat => yellow_led_off
  | 6%nat => sleep 5
  | 7%nat => start_multicast_listener e
  | _ => skip
  end.

Definition finally_pc : nat := 8.

(** One line of a reset thread: the next program counter ([None] when the
    thread has ended) and the state it leaves. *)
Definition reset_thread_step (e : io) (pc : nat) (s : state)
    : option nat * state :=
  if (pc <? finally_pc)%nat then
    match reset_line pc e s with
    | (Returned, s') => (Some (S pc), s')
    | (Raised, s') => (Some finally_pc, emit (EPrint "Error during reset") s')
    end
  else (None, set_reset_in_progress false s).

(** Run a reset thread alone until it ends. *)
Fixpoint reset_thread_run (fuel : nat) (e : nat -> io) (pc : nat) (s : state)
    : option state :=
  match fuel with
  | O => None
  | S fuel' =>
      match reset_thread_step (e pc) pc s with
      | (None, s') => Some s'
      | (Some pc', s') => reset_thread_run fuel' e pc' s'
      end
  end.

(** ** A concrete numeral reader

    The builtin [int] restricted to plain signed decimal numerals; it is
    used only to run the model on the payloads of the examples. *)

Definition is_digit (c : ascii) : bool :=
  ((48 <=? nat_of_ascii c) && (nat_of_ascii c <=? 57))%nat.

Definition digit_value (c : ascii) : Z := Z.of_nat (nat_of_ascii c - 48).

Fixpoint digits_value (acc : Z) (s : string) : option Z :=
  match s with
  | EmptyString => Some acc
  | String c rest =>
      if is_digit c then digits_value (10 * acc + digit_value c) rest else None
  end.

Definition unsigned_decimal (s : string) : option Z :=
  match s with
  | EmptyString => None
  | String _ _ => digits_value 0 s
  end.

Definition int_decimal (s : string) : option Z :=
  match s with
  | String "-"%char rest => option_map Z.opp (unsigned_decimal rest)
  | String "+"%char rest => unsigned_decimal rest
  | _ => unsigned_decimal s
  end.

Section Logger.

(** The builtin [int] applied to a piece of text; [None] is [ValueError]. *)
Variable int : string -> option Z.

(** ** Packet processor *)

(** The body of the [for] loop of [process_packets] after the dequeue. *)
Definition process_record (e : io) (message : string) (addr : address)
    : action :=
  fun s =>
    let parts := split ","%char message in
    if (3 <=? length parts)%nat then
      match int (nth 0 parts EmptyString) with
      | None => (Raised, s)
      | Some flag =>
          let is_master := flag =? 1 in
          match int (nth 1 parts EmptyString) with
          | None => (Raised, s)
          | Some light_value =>
              let device_ip := fst addr in
              if is_master then
                (Returned, log_master_data e device_ip light_value s)
              else (Returned, s)
          end
      end
    else (Returned, s).

(** [n] more turns of the [for] loop; [i] counts the turns already taken
    and [e i] is the world's answer during turn [i]. *)
Fixpoint process_loop (n i : nat) (e : nat -> io) : action :=
  fun s =>
    match n with
    | O => (Returned, s)
    | S n' =>
        match packet_queue s with
        | [] => (Returned, s)
        | (message, addr) :: rest =>
            (exec (set_packet_queue rest) ;;
             process_record (e i) message addr ;;
             process_loop n' (S i) e)%action s
        end
    end.

Definition process_packets (e : nat -> io) : action :=
  try_except (process_loop 100 0 e) (print "Error processing packets").

(** ** The threads side by side

    The main thread calls [process_packets] over and over; the listener
    appends to the queue and the aggregator runs its loop body while
    [stop_listening] is false; the button callback runs the handler; each
    live reset thread advances by one line.  [reset_threads] holds the
    program counters of the live reset threads.

    One event is one uninterrupted piece of one thread: a call of the
    button handler during whose sleep no other thread runs (a callback
    that sleeps while the others run is split in two further down), a
    line of [handle_reset_sequence], a call of [process_packets], one
    pass of the listener loop that received a datagram ([message] is the
    payload after [decode] and [strip]), one pass of the aggregator loop.
    The sleeps of the polling loops and the progress messages printed on
    the way are left out of the effect trace; the error messages of the
    [except] clauses are in it. *)

Record system : Type := mkSystem {
  globals : state;
  reset_threads : list nat
}.

Inductive event : Type :=
| Press
| ResetLine (i : nat) (e : io)
| MainLoop (e : nat -> io)
| Receive (message : string) (addr : address)
| MatrixLoop (e : io).

Fixpoint replace_nth {A : Type} (i : nat) (x : A) (l : list A) : list A :=
  match l, i with
  | [], _ => []
  | _ :: t, O => x :: t
  | h :: t, S i' => h :: replace_nth i' x t
  end.

Fixpoint remove_nth {A : Type} (i : nat) (l : list A) : list A :=
  match l, i with
  | [], _ => []
  | _ :: t, O => t
  | h :: t, S i' => h :: remove_nth i' t
  end.

Definition step (ev : event) (w : system) : system :=
  let s := globals w in
  match ev with
  | Press =>
      match button_pressed_handler s with
      | (true, s') => mkSystem s' (reset_threads w ++ [0%nat])
      | (false, s') => mkSystem s' (reset_threads w)
      end
  | ResetLine i e =>
      match nth_error (reset_threads w) i with
      | None => w
      | Some pc =>
          match reset_thread_step e pc s with
          | (Some pc', s') => mkSystem s' (replace_nth i pc' (reset_threads w))
          | (None, s') => mkSystem s' (remove_nth i (reset_threads w))
          end
      end
  | MainLoop e => mkSystem (snd (process_packets e s)) (reset_threads w)
  | Receive message addr =>
      if stop_listening s then w
      else
        mkSystem (set_packet_queue (packet_queue s ++ [(message, addr)]) s)
          (reset_threads w)
  | MatrixLoop e =>
      if MATRIX_ENABLED s && negb (stop_listening s) then
        mkSystem (matrix_update_iteration e s) (reset_threads w)
      else w
  end.

Definition run (evs : list event) (w : system) : system :=
  fold_left (fun w ev => step ev w) evs w.

(** [main] up to the first call of the processing loop. *)
Definition boot (e : io) (matrix_enabled : bool) : system :=
  mkSystem (snd (start_multicast_listener e (initial_state matrix_enabled))) [].

(** The number of reset threads started along a run. *)
Fixpoint resets_started (evs : list event) (w : system) : nat :=
  match evs with
  | [] => 0
  | ev :: evs' =>
      (match ev with
       | Press => if fst (button_pressed_handler (globals w)) then 1 else 0
       | _ => 0
       end + resets_started evs' (step ev w))%nat
  end.

(** The number of presses that arrive while the orchestrator is idle. *)
Fixpoint idle_presses (evs : list event) (w : system) : nat :=
  match evs with
  | [] => 0
  | ev :: evs' =>
      (match ev with
       | Press => if reset_in_progress (globals w) then 0 else 1
       | _ => 0
       end + idle_presses evs' (step ev w))%nat
  end.

(** The number of reset threads that ran their [finally] clause and ended
    along a run. *)
Fixpoint resets_finished (evs : list event) (w : system) : nat :=
  match evs with
  | [] => 0
  | ev :: evs' =>
      (match ev with
       | ResetLine i e =>
           match nth_error (reset_threads w) i with
           | Some pc =>
               match fst (reset_thread_step e pc (globals w)) with
               | None => 1
               | Some _ => 0
               end
           | None => 0
           end
       | _ => 0
       end + resets_finished evs' (step ev w))%nat
  end.

(** The heights appended to the history along a run, in the order of the
    aggregation fires: one for each due pass of the aggregator whose
    division does not raise. *)
Fixpoint fired_heights (evs : list event) (w : system) : list Z :=
  match evs with
  | [] => []
  | ev :: evs' =>
      match ev with
      | MatrixLoop e =>
          if MATRIX_ENABLED (globals w) && negb (stop_listening (globals w))
             && fire_due e (globals w)
          then match avg_light (light_value_accumulator (globals w)) with
               | Some avg => [map_value_to_height avg]
               | None => []
               end
          else []
      | _ => []
      end ++ fired_heights evs' (step ev w)
  end.

(** A run in which no reset thread executes a line. *)
Definition is_reset_line (ev : event) : bool :=
  match ev with
  | ResetLine _ _ => true
  | _ => false
  end.

(** The lines that one reset thread executes with the worlds [e k],
    [e (k + 1)], ..., [n] of them. *)
Definition reset_lines (e : nat -> io) (k n : nat) : list event :=
  map (fun i => ResetLine 0 (e i)) (List.seq k n).

(** ** The button callback beside the other threads

    [button_pressed_handler] sleeps for a tenth of a second between
    switching the LED on and testing [reset_in_progress], and the other
    threads run meanwhile.  Here the callback is two events: it arrives
    (LED on, the sleep begins) and it wakes (LED off, the test and what
    follows it).  The callbacks of one button run one after the other, so
    while one sleeps no other arrives. *)

Definition handler_arrives (s : state) : state :=
  let s := emit ELedOn s in
  emit (ESleep (1 # 10)) s.

Definition handler_wakes (s : state) : bool * state :=
  let s := emit ELedOff s in
  if reset_in_progress s then (false, s)
  else
    let s := set_reset_in_progress true s in
    (true, emit (EStart ResetThread) s).

Record press_system : Type := mkPressSystem {
  sys : system;
  handler_sleeps : bool
}.

Inductive press_event : Type :=
| Arrive
| Wake
| Other (ev : event).

Definition press_step (pev : press_event) (b : press_system) : press_system :=
  let w := sys b in
  match pev with
  | Arrive =>
      if handler_sleeps b then b
      else
        mkPressSystem
          (mkSystem (handler_arrives (globals w)) (reset_threads w)) true
  | Wake =>
      if handler_sleeps b then
        match handler_wakes (globals w) with
        | (true, s') =>
            mkPressSystem (mkSystem s' (reset_threads w ++ [0%nat])) false
        | (false, s') => mkPressSystem (mkSystem s' (reset_threads w)) false
        end
      else b
  | Other Press => b
  | Other ev => mkPressSystem (step ev w) (handler_sleeps b)
  end.

Definition press_run (pevs : list press_event) (b : press_system)
    : press_system :=
  fold_left (fun b pev => press_step pev b) pevs b.

Definition press_boot (e : io) (matrix_enabled : bool) : press_system :=
  mkPressSystem (boot e matrix_enabled) false.

(** The number of reset threads started along such a run. *)
Fixpoint sequences_started (pevs : list press_event) (b : press_system)
    : nat :=
  match pevs with
  | [] => 0
  | pev :: pevs' =>
      (match pev with
       | Wake =>
           if handler_sleeps b && fst (handler_wakes (globals (sys b)))
           then 1 else 0
       | _ => 0
       end + sequences_started pevs' (press_step pev b))%nat
  end.

(** The number of callbacks that find [reset_in_progress] false when they
    test it. *)
Fixpoint clear_tests (pevs : list press_event) (b : press_system) : nat :=
  match pevs with
  | [] => 0
  | pev :: pevs' =>
      (match pev with
       | Wake =>
           if handler_sleeps b && negb (reset_in_progress (globals (sys b)))
           then 1 else 0
       | _ => 0
       end + clear_tests pevs' (press_step pev b))%nat
  end.

(** The number of reset threads that ran their [finally] clause and ended
    along such a run. *)
Fixpoint sequences_finished (pevs : list press_event) (b : press_system)
    : nat :=
  match pevs with
  | [] => 0
  | pev :: pevs' =>
      (match pev with
       | Other ev => resets_finished [ev] (sys b)
       | _ => 0
       end + sequences_finished pevs' (press_step pev b))%nat
  end.

End Logger.

(** The quantization written with the step 512 instead of [LIGHT_STEP]:
    [clamp(floor(mean / 512), 0, 7)]. *)
Definition spec_height_512 (mean : Q) : Z :=
  Z.max 0 (Z.min 7 (Qfloor (mean / 512))).

(** The joins recorded in an effect trace: thread and timeout. *)
Definition joins (l : list effect) : list (thread * Q) :=
  flat_map
    (fun x =>
       match x with
       | EJoin t timeout _ => [(t, timeout)]
       | _ => []
       end) l.

(** The globals of the pipeline: everything a session works with. *)
Definition pipeline_view (s : state) :=
  (stop_listening s, listening_thread s, current_log_file s, log_writer s,
   packet_queue s, matrix_columns s, last_matrix_update s,
   light_value_accumulator s, packet_count s, last_process_time s).


(** Heights and length that the history may hold. *)
Definition history_ok (l : list Z) : Prop :=
  Forall (fun h => 0 <= h <= 7) l /\ (length l <= 8)%nat.

(** No call raises. *)
Definition calm (e : io) : Prop := forall p, raises e p = false.



(** Every join on record waits for the listener and for at most three
    seconds, and [listening_thread] holds the listener or nothing. *)
Definition joins_view (s : state) : list (thread * Q) * option thread :=
  (joins (effects s), listening_thread s).

Definition joins_ok (v : list (thread * Q) * option thread) : Prop :=
  Forall (fun j => j = (ListenerThread, 3%Q)) (fst v)
  /\ (snd v = None \/ snd v = Some ListenerThread).

(** ** Worlds and runs used in the examples *)

Definition quiet : fault_point -> bool := fun _ => false.

(** The world at clock value [t] in which no call raises and no join times
    out. *)
Definition at_time (t : Q) : io := mkIo t t quiet false.

(** The world at clock value [t] in which exactly the calls at [p] raise. *)
Definition failing_at (p : fault_point -> bool) (t : Q) : io :=
  mkIo t t p false.

Definition only_writerow (p : fault_point) : bool :=
  match p with
  | F_writerow => true
  | _ => false
  end.


Definition only_matrix_draw (p : fault_point) : bool :=
  match p with
  | F_matrix_draw => true
  | _ => false
  end.

Definition only_socket (p : fault_point) : bool :=
  match p with
  | F_socket => true
  | _ => false
  end.


Definition only_open (p : fault_point) : bool :=
  match p with
  | F_open => true
  | _ => false
  end.

(** The send of round 4 raises and no other call does. *)
Definition only_fifth_send (p : fault_point) : bool :=
  match p with
  | F_sendto 4 => true
  | _ => false
  end.

Definition sender : address := ("10.0.0.5"%string, 5000).
Definition other_sender : address := ("10.0.0.6"%string, 5000).

(** The program right after start-up at clock value 1000, with and without
    the display. *)
Definition started : system := boot (at_time 1000) true.

(** A datagram arrives and the main loop runs once at clock value [t]. *)
Definition reading (message : string) (t : Q) : list event :=
  [Receive message sender; MainLoop (fun _ => at_time t)].

(** Eight readings half a second apart whose sum is 4095. *)
Definition eight_readings : list event :=
  reading "1,512,0" 1000 ++ reading "1,512,0" (2001 # 2)
  ++ reading "1,512,0" 1001 ++ reading "1,512,0" (2003 # 2)
  ++ reading "1,512,0" 1002 ++ reading "1,512,0" (2005 # 2)
  ++ reading "1,512,0" 1003 ++ reading "1,511,0" (2007 # 2).

(** The readings 100, 300 and 500 one second apart. *)
Definition three_readings : list event :=
  reading "1,100,0" 1001 ++ reading "1,300,0" 1002 ++ reading "1,500,0" 1003.

(** A master record whose reading is [2 * 10^308], a numeral of 309
    digits; the datagram has 313 bytes. *)
Definition huge_reading : string :=
  String.append "1,2"
    (String.append (string_of_list_ascii (repeat "0"%char 308)) ",0").

(** A reading followed by the aggregation fire of its window. *)
Definition window (message : string) (t : Q) : list event :=
  reading message (t + 1) ++ [MatrixLoop (at_time (t + 4))].

(** Nine windows with rising readings. *)
Definition nine_windows : list event :=
  window "1,0,0" 1000 ++ window "1,512,0" 1004 ++ window "1,1024,0" 1008
  ++ window "1,1536,0" 1012 ++ window "1,2048,0" 1016
  ++ window "1,2560,0" 1020 ++ window "1,3072,0" 1024
  ++ window "1,3584,0" 1028 ++ window "1,4096,0" 1032.

(** The button is pressed, the reset thread lights the LED, a datagram
    arrives, and the reset thread runs its stop step. *)
Definition stop_with_one_queued : list event :=
  [Press; ResetLine 0 (at_time 1010);
   Receive "1,2048,0,0" sender; ResetLine 0 (at_time 1010)].

(** The same with two datagrams from two devices. *)
Definition stop_with_two_queued : list event :=
  [Press; ResetLine 0 (at_time 1010);
   Receive "1,2048,0,0" sender; Receive "1,1000,0,0" other_sender;
   ResetLine 0 (at_time 1010)].

(** The remaining lines of the reset thread: clear, broadcast, sleep, LED
    off, sleep, start, and the [finally] clause. *)
Definition rest_of_reset : list event :=
  [ResetLine 0 (at_time 1011); ResetLine 0 (at_time 1011);
   ResetLine 0 (at_time 1012); ResetLine 0 (at_time 1015);
   ResetLine 0 (at_time 1015); ResetLine 0 (at_time 1020);
   ResetLine 0 (at_time 1020)].


(** A whole reset from the press to the [finally] clause, after the nine
    windows: stop, clear and broadcast at 1036, LED off at 1040, start at
    1045. *)
Definition whole_reset : list event :=
  [Press; ResetLine 0 (at_time 1036); ResetLine 0 (at_time 1036);
   ResetLine 0 (at_time 1036); ResetLine 0 (at_time 1036);
   ResetLine 0 (at_time 1037); ResetLine 0 (at_time 1040);
   ResetLine 0 (at_time 1040); ResetLine 0 (at_time 1045);
   ResetLine 0 (at_time 1045)].

(** A press whose callback wakes before anything else happens, and the
    lines 0 to 6 of the reset thread it starts: the thread is at the end
    of its second sleep. *)
Definition press_and_seven_lines : list press_event :=
  [Arrive; Wake] ++ map Other (reset_lines (fun _ => at_time 1010) 0 7).

(** The start step and the [finally] clause of that thread. *)
Definition last_two_lines : list press_event :=
  [Other (ResetLine 0 (at_time 1020)); Other (ResetLine 0 (at_time 1020))].

(** ** The rest of the module *)

(** The points that [update_led_matrix] sets for one entry of
    [enumerate(columns_copy)]: [(col_idx, 7 - row)] for [row] in
    [range(height + 1)]. *)
Definition column_points (col_idx : nat) (height : Z) : list (Z * Z) :=
  map (fun row => (Z.of_nat col_idx, 7 - Z.of_nat row))
    (List.seq 0 (Z.to_nat (height + 1))).

(** All the points of one refresh, column after column. *)
Definition drawn_points (columns_copy : list Z) : list (Z * Z) :=
  flat_map (fun p => column_points (fst p) (snd p))
    (combine (List.seq 0 (length columns_copy)) columns_copy).

(** The [finally] clause of [main]. *)
Definition main_finally (e : io) : action :=
  (stop_multicast_listener e ;;
   yellow_led_off ;;
   (fun s => when (MATRIX_ENABLED s) (clear_led_matrix e) s))%action.

(** The effects of [n] rounds of the broadcast loop. *)
Fixpoint broadcasts (n : nat) : list effect :=
  match n with
  | O => []
  | S n' => ESendto "0,0,255,1" :: ESleep (1 # 10) :: broadcasts n'
  end.

(** The number of entries of the effect trace that satisfy [p]. *)
Definition count_effects (p : effect -> bool) (l : list effect) : nat :=
  length (filter p l).

Definition is_sendto (x : effect) : bool :=
  match x with
  | ESendto _ => true
  | _ => false
  end.

(** The globals that decide which readings are accepted. *)
Definition ingest_view (s : state) :=
  (packet_queue s, light_value_accumulator s, packet_count s,
   last_process_time s).

(** The light values of the data rows of a log, in order. *)
Definition data_values (rows : list csv_row) : list Z :=
  flat_map
    (fun r =>
       match r with
       | Header => []
       | Data _ _ v => [v]
       end) rows.

(** A queued record that [process_packets] decodes without raising: at
    least three fields, and [int] accepts the first two. *)
Definition decodable (int : string -> option Z) (r : string * address)
    : Prop :=
  (3 <= length (split ","%char (fst r)))%nat
  /\ int (nth 0 (split ","%char (fst r)) EmptyString) <> None
  /\ int (nth 1 (split ","%char (fst r)) EmptyString) <> None.

(** A decodable record whose first field is not 1. *)
Definition not_master (int : string -> option Z) (r : string * address)
    : Prop :=
  (3 <= length (split ","%char (fst r)))%nat
  /\ (exists flag,
        int (nth 0 (split ","%char (fst r)) EmptyString) = Some flag
        /\ flag <> 1)
  /\ int (nth 1 (split ","%char (fst r)) EmptyString) <> None.

(** Several entries of the effect trace, one after the other. *)
Definition emits (l : list effect) (s : state) : state :=
  fold_left (fun s x => emit x s) l s.

Definition is_led_off (x : effect) : bool :=
  match x with
  | ELedOff => true
  | _ => false
  end.

Definition is_start (x : effect) : bool :=
  match x with
  | EStart _ => true
  | _ => false
  end.

(** What a stopped pipeline looks like, with the numbers of LED-off and
    thread-start effects so far. *)
Definition stopped_view (s : state) :=
  (stop_listening s, listening_thread s, log_writer s,
   count_effects is_led_off (effects s), count_effects is_start (effects s)).

Section Properties.

Variable int : string -> option Z.

(** ** Facts about the primitives *)

Lemma Qlt_bool_true (a b : Q) : Qlt_bool a b = true <-> (a < b)%Q.
Proof.
  unfold Qlt_bool. rewrite negb_true_iff. split.
  - intros H. apply Qnot_le_lt. intros Hle.
    apply Qle_bool_iff in Hle. congruence.
  - intros H. destruct (Qle_bool b a) eqn:E; [|reflexivity].
    apply Qle_bool_iff in E. exfalso. exact (Qlt_not_le _ _ H E).
Qed.

Lemma Qlt_bool_false (a b : Q) : Qlt_bool a b = false <-> (b <= a)%Q.
Proof.
  unfold Qlt_bool. rewrite negb_false_iff. apply Qle_bool_iff.
Qed.

(** ** Throttle *)

Lemma log_master_data_dropped (e : io) (ip : string) (v : Z) (s : state) :
  (time_time e - last_process_time s < DATA_THROTTLE)%Q ->
  log_master_data e ip v s = s.
Proof.
  intros H. unfold log_master_data.
  apply Qlt_bool_true in H. rewrite H. reflexivity.
Qed.

Lemma log_master_data_accepted (e : io) (ip : string) (v : Z) (s : state) :
  (DATA_THROTTLE <= time_time e - last_process_time s)%Q ->
  let s' := log_master_data e ip v s in
  last_process_time s' = time_time e
  /\ packet_count s' = packet_count s + 1
  /\ light_value_accumulator s' = light_value_accumulator s ++ [v]
  /\ log_writer s' =
       match log_writer s with
       | Some rows =>
           if raises e F_writerow then Some rows
           else Some (rows ++ [Data (datetime_now e) ip v])
       | None => None
       end.
Proof.
  intros H. unfold log_master_data.
  apply Qlt_bool_false in H. rewrite H. cbn.
  destruct (log_writer s) as [rows|] eqn:W; cbn;
    [destruct (raises e F_writerow); cbn|]; rewrite ?W; repeat split; reflexivity.
Qed.


(** ** Quantization *)

Lemma int_of_number_nonneg (x : Q) :
  (0 <= x)%Q -> int_of_number x = Qfloor x.
Proof.
  destruct x as [n d]. unfold Qle, int_of_number. simpl. intros H.
  apply Z.quot_div_nonneg; lia.
Qed.

Lemma LIGHT_STEP_pos : (0 < LIGHT_STEP)%Q.
Proof. reflexivity. Qed.

Lemma Qfloor_div_step_nonneg (x : Q) :
  (0 <= x)%Q -> 0 <= Qfloor (x / LIGHT_STEP).
Proof.
  intros H.
  assert (Hq : (0 <= x / LIGHT_STEP)%Q).
  { apply Qle_shift_div_l; [exact LIGHT_STEP_pos|].
    rewrite Qmult_0_l. exact H. }
  exact (Qfloor_resp_le 0 _ Hq).
Qed.

Lemma Qfloor_div_step_nonpos (x : Q) :
  (x <= 0)%Q -> Qfloor (x / LIGHT_STEP) <= 0.
Proof.
  intros H.
  assert (Hq : (x / LIGHT_STEP <= 0)%Q).
  { apply Qle_shift_div_r; [exact LIGHT_STEP_pos|].
    rewrite Qmult_0_l. exact H. }
  exact (Qfloor_resp_le _ 0 Hq).
Qed.

Lemma Qfloor_div_step_top (x : Q) :
  (MAX_LIGHT_VALUE <= x)%Q -> 8 <= Qfloor (x / LIGHT_STEP).
Proof.
  intros H.
  assert (Hq : (8 <= x / LIGHT_STEP)%Q).
  { apply Qle_shift_div_l; [exact LIGHT_STEP_pos|].
    apply Qle_trans with MAX_LIGHT_VALUE; [|exact H].
    unfold Qle. simpl. lia. }
  exact (Qfloor_resp_le 8 _ Hq).
Qed.

Lemma cap_at_7 (h f : Z) :
  (0 <= h /\ h = f) \/ (h = 0 /\ f <= 0) \/ (h = 8 /\ 8 <= f) ->
  (if 7 <? h then 7 else h) = Z.max 0 (Z.min 7 f).
Proof. intros H. destruct (Z.ltb_spec 7 h); lia. Qed.

(** The height is the floor of [value / LIGHT_STEP] brought into [0, 7]. *)
Lemma map_value_to_height_floor (q : Q) :
  map_value_to_height q = Z.max 0 (Z.min 7 (Qfloor (q / LIGHT_STEP))).
Proof.
  unfold map_value_to_height, py_min. cbv zeta. apply cap_at_7.
  destruct (Qlt_bool q MAX_LIGHT_VALUE) eqn:Hmax.
  - unfold py_max. destruct (Qlt_bool 0 q) eqn:Hpos.
    + left. apply Qlt_bool_true in Hpos. apply Qlt_le_weak in Hpos.
      assert (Hq : (0 <= q / LIGHT_STEP)%Q).
      { apply Qle_shift_div_l; [exact LIGHT_STEP_pos|].
        rewrite Qmult_0_l. exact Hpos. }
      rewrite (int_of_number_nonneg _ Hq).
      split; [exact (Qfloor_div_step_nonneg q Hpos)|reflexivity].
    + right. left. apply Qlt_bool_false in Hpos.
      split; [reflexivity|exact (Qfloor_div_step_nonpos q Hpos)].
  - right. right. apply Qlt_bool_false in Hmax.
    split; [reflexivity|exact (Qfloor_div_step_top q Hmax)].
Qed.

Lemma map_value_to_height_range (q : Q) : 0 <= map_value_to_height q <= 7.
Proof. rewrite map_value_to_height_floor. lia. Qed.

Lemma update_led_matrix_frame (e : io) (s : state) :
  let s' := snd (update_led_matrix e s) in
  matrix_columns s' = matrix_columns s
  /\ light_value_accumulator s' = light_value_accumulator s
  /\ log_writer s' = log_writer s
  /\ reset_in_progress s' = reset_in_progress s
  /\ MATRIX_ENABLED s' = MATRIX_ENABLED s
  /\ stop_listening s' = stop_listening s.
Proof.
  unfold update_led_matrix.
  destruct (MATRIX_ENABLED s) eqn:M; cbn; [|rewrite M; tauto].
  unfold try_except, seq, raise_when, exec, print.
  destruct (raises e F_matrix_draw); cbn; rewrite M; tauto.
Qed.

Lemma matrix_update_iteration_fire (e : io) (s : state) (avg : Q) :
  fire_due e s = true ->
  avg_light (light_value_accumulator s) = Some avg ->
  let s' := matrix_update_iteration e s in
  matrix_columns s' =
    deque_append (map_value_to_height avg) (matrix_columns s)
  /\ light_value_accumulator s' = []
  /\ last_matrix_update s' = time_time e.
Proof.
  intros H Hm. unfold matrix_update_iteration, try_except, matrix_update_body.
  rewrite H, Hm. cbn zeta.
  match goal with
  | |- context [update_led_matrix e ?t] =>
      destruct (update_led_matrix_frame e t) as (Hc & Ha & _)
  end.
  cbn in *. rewrite Hc, Ha. cbn. repeat split; reflexivity.
Qed.

Lemma matrix_update_iteration_overflow (e : io) (s : state) :
  fire_due e s = true ->
  avg_light (light_value_accumulator s) = None ->
  matrix_update_iteration e s = emit (EPrint "Matrix update thread error") s.
Proof.
  intros H Hm. unfold matrix_update_iteration, try_except, matrix_update_body.
  rewrite H, Hm. reflexivity.
Qed.

Lemma matrix_update_iteration_idle (e : io) (s : state) :
  fire_due e s = false -> matrix_update_iteration e s = s.
Proof.
  intros H. unfold matrix_update_iteration, try_except, matrix_update_body.
  rewrite H. reflexivity.
Qed.

(** The division raises exactly when the accumulator is not empty and its
    mean is out of the float range. *)
Lemma avg_light_cons (x : Z) (acc : list Z) :
  avg_light (x :: acc) =
    true_divide (sum (x :: acc)) (Z.of_nat (length (x :: acc))).
Proof. reflexivity. Qed.

Lemma avg_light_some (acc : list Z) (mean : Q) :
  avg_light acc = Some mean ->
  (acc = [] /\ mean = 0%Q)
  \/ (acc <> []
      /\ mean = (inject_Z (sum acc) / inject_Z (Z.of_nat (length acc)))%Q
      /\ (Qabs mean < FLOAT_OVERFLOW)%Q).
Proof.
  destruct acc as [|x acc].
  - intros H. injection H as <-. left. auto.
  - rewrite avg_light_cons. unfold true_divide. cbv zeta.
    destruct (Qle_bool FLOAT_OVERFLOW _) eqn:E; [discriminate|].
    intros H.
    assert (Hm : mean =
                 (inject_Z (sum (x :: acc))
                  / inject_Z (Z.of_nat (length (x :: acc))))%Q)
      by congruence.
    right. split; [discriminate|]. split; [exact Hm|].
    rewrite Hm. apply Qnot_le_lt. intros Hle. apply Qle_bool_iff in Hle.
    rewrite Hle in E. discriminate.
Qed.

Lemma avg_light_none (acc : list Z) :
  avg_light acc = None ->
  acc <> []
  /\ (FLOAT_OVERFLOW <=
      Qabs (inject_Z (sum acc) / inject_Z (Z.of_nat (length acc))))%Q.
Proof.
  destruct acc as [|x acc]; [discriminate|].
  rewrite avg_light_cons. unfold true_divide. cbv zeta.
  destruct (Qle_bool FLOAT_OVERFLOW _) eqn:E; [|discriminate].
  intros _. split; [discriminate|]. apply Qle_bool_iff. exact E.
Qed.

(** C2 (amended).  A pass of the aggregator that is due does one of two
    things.  When the division [sum / len] does not raise, it fires: the
    bucket appended to the history is [clamp(floor(mean / LIGHT_STEP), 0,
    7)] with [LIGHT_STEP = 4095 / 8 = 511.875], where [mean] is the
    arithmetic mean of the accumulator at fire time and [0] for the empty
    accumulator, and the accumulator is emptied.  When the division raises,
    which it does exactly when the accumulator is not empty and the
    magnitude of its mean is [2^1024 - 2^970] or more, the pass prints the
    error and changes nothing else: no bucket, the accumulator kept.
    Means 0, 511, 512 and 4095 give 0, 0, 1 and 7. *)
Theorem quantization_law :
  forall (e : io) (s : state),
    fire_due e s = true ->
    let acc := light_value_accumulator s in
    let s' := matrix_update_iteration e s in
    (forall mean,
       avg_light acc = Some mean ->
       matrix_columns s' =
         deque_append (Z.max 0 (Z.min 7 (Qfloor (mean / LIGHT_STEP))))
           (matrix_columns s)
       /\ light_value_accumulator s' = []
       /\ last_matrix_update s' = time_time e
       /\ (acc = [] -> mean = 0%Q)
       /\ (acc <> [] ->
           mean = (inject_Z (sum acc) / inject_Z (Z.of_nat (length acc)))%Q
           /\ (Qabs mean < FLOAT_OVERFLOW)%Q))
    /\ (avg_light acc = None ->
        s' = emit (EPrint "Matrix update thread error") s
        /\ acc <> []
        /\ (FLOAT_OVERFLOW <=
            Qabs (inject_Z (sum acc) / inject_Z (Z.of_nat (length acc))))%Q)
    /\ (acc = [] -> avg_light acc = Some 0%Q)
    /\ (acc <> [] ->
        (Qabs (inject_Z (sum acc) / inject_Z (Z.of_nat (length acc)))
         < FLOAT_OVERFLOW)%Q ->
        avg_light acc =
          Some (inject_Z (sum acc) / inject_Z (Z.of_nat (length acc)))%Q)
    /\ (LIGHT_STEP == 4095 / 8)%Q
    /\ map_value_to_height 0 = 0
    /\ map_value_to_height 511 = 0
    /\ map_value_to_height 512 = 1
    /\ map_value_to_height 4095 = 7.
Proof.
  intros e s H acc s'.
  split.
  { intros mean Hm.
    destruct (matrix_update_iteration_fire e s mean H Hm) as (Hc & Ha & Hl).
    fold s' in Hc, Ha, Hl. rewrite map_value_to_height_floor in Hc.
    split; [exact Hc|]. split; [exact Ha|]. split; [exact Hl|].
    destruct (avg_light_some acc mean Hm) as [[E E0]|(E & E0 & E1)].
    - split; [intros _; exact E0|intros N; contradiction].
    - split; [intros N; contradiction|intros _; split; assumption]. }
  split.
  { intros Hm. split; [apply matrix_update_iteration_overflow; assumption|].
    apply avg_light_none, Hm. }
  split; [intros E; rewrite E; reflexivity|].
  split.
  { intros N Hlt. destruct acc as [|x acc']; [contradiction|].
    rewrite avg_light_cons. unfold true_divide. cbv zeta.
    destruct (Qle_bool FLOAT_OVERFLOW _) eqn:E; [|reflexivity].
    apply Qle_bool_iff in E. exfalso. exact (Qlt_not_le _ _ Hlt E). }
  repeat split; reflexivity.
Qed.

(** ** Which globals a statement leaves alone *)

Definition preserves {A : Type} (f : state -> A) (a : action) : Prop :=
  forall s, f (snd (a s)) = f s.

Section Frame.

Context {A : Type} (f : state -> A).

Lemma preserves_skip : preserves f skip.
Proof. intros s. reflexivity. Qed.

Lemma preserves_exec (g : state -> state) :
  (forall s, f (g s) = f s) -> preserves f (exec g).
Proof. intros H s. apply H. Qed.

Lemma preserves_raise_when (b : bool) : preserves f (raise_when b).
Proof. intros s. reflexivity. Qed.

Lemma preserves_seq (a b : action) :
  preserves f a -> preserves f b -> preserves f (a ;; b).
Proof.
  intros Ha Hb s. unfold seq. specialize (Ha s).
  destruct (a s) as [[|] s1]; cbn in *; [rewrite Hb|]; exact Ha.
Qed.

Lemma preserves_try_except (a h : action) :
  preserves f a -> preserves f h -> preserves f (try_except a h).
Proof.
  intros Ha Hh s. unfold try_except. specialize (Ha s).
  destruct (a s) as [[|] s1]; cbn in *; [|rewrite Hh]; exact Ha.
Qed.

Lemma preserves_state_test (b : state -> bool) (a1 a2 : action) :
  preserves f a1 -> preserves f a2 ->
  preserves f (fun s => if b s then a1 s else a2 s).
Proof. intros H1 H2 s. destruct (b s); [apply H1|apply H2]. Qed.

End Frame.

Create HintDb frame.

#[local] Hint Resolve preserves_skip preserves_raise_when preserves_seq
  preserves_try_except : frame.
#[local] Hint Extern 1 (preserves _ (exec _)) =>
  apply preserves_exec; intros; reflexivity : frame.
#[local] Hint Extern 1 (preserves _ (print _)) =>
  apply preserves_exec; intros; reflexivity : frame.
#[local] Hint Extern 1 (preserves _ (sleep _)) =>
  apply preserves_exec; intros; reflexivity : frame.
#[local] Hint Extern 1 (preserves _ yellow_led_on) =>
  apply preserves_exec; intros; reflexivity : frame.
#[local] Hint Extern 1 (preserves _ yellow_led_off) =>
  apply preserves_exec; intros; reflexivity : frame.

Lemma send_loop_preserves {A : Type} (f : state -> A) (e : io) (n i : nat) :
  (forall p s, f (emit (ESendto p) s) = f s) ->
  (forall d s, f (emit (ESleep d) s) = f s) ->
  preserves f (send_loop e i n).
Proof.
  intros H1 H2. revert i. induction n as [|n IH]; intros i; cbn.
  - apply preserves_skip.
  - repeat apply preserves_seq; auto using preserves_raise_when.
    + apply preserves_exec. intros; apply H1.
    + apply preserves_exec. intros; apply H2.
Qed.

Lemma send_reset_command_preserves {A : Type} (f : state -> A) (e : io) :
  (forall p s, f (emit (ESendto p) s) = f s) ->
  (forall d s, f (emit (ESleep d) s) = f s) ->
  preserves f (send_reset_command e).
Proof.
  intros H1 H2. unfold send_reset_command.
  apply preserves_seq; [apply preserves_raise_when|].
  apply send_loop_preserves; assumption.
Qed.

Lemma clear_led_matrix_flag (e : io) :
  preserves reset_in_progress (clear_led_matrix e).
Proof.
  unfold clear_led_matrix.
  apply (preserves_state_test _ (fun s => negb (MATRIX_ENABLED s)) skip).
  - apply preserves_skip.
  - auto 20 with frame.
Qed.

Lemma close_log_file_flag (e : io) :
  preserves reset_in_progress (close_log_file e).
Proof.
  intros s. unfold close_log_file.
  destruct (log_writer s); [destruct (raises e F_close)|]; reflexivity.
Qed.

Lemma stop_multicast_listener_flag (e : io) :
  preserves reset_in_progress (stop_multicast_listener e).
Proof.
  unfold stop_multicast_listener.
  apply preserves_seq; [auto with frame|].
  apply preserves_seq; [|apply close_log_file_flag].
  intros s. destruct (listening_thread s); reflexivity.
Qed.

Lemma create_new_log_file_flag (e : io) :
  preserves reset_in_progress (create_new_log_file e).
Proof. unfold create_new_log_file. auto 20 with frame. Qed.

Lemma start_multicast_listener_flag (e : io) :
  preserves reset_in_progress (start_multicast_listener e).
Proof.
  unfold start_multicast_listener.
  repeat (apply preserves_seq; [solve [auto with frame]|]).
  apply preserves_seq; [apply clear_led_matrix_flag|].
  apply preserves_seq; [apply create_new_log_file_flag|].
  repeat (apply preserves_seq; [solve [auto with frame]|]).
  intros s. destruct (MATRIX_ENABLED s); reflexivity.
Qed.

Lemma reset_line_flag (pc : nat) (e : io) :
  preserves reset_in_progress (reset_line pc e).
Proof.
  destruct pc as [|[|[|[|[|[|[|[|pc]]]]]]]]; cbn [reset_line].
  - auto with frame.
  - apply stop_multicast_listener_flag.
  - apply clear_led_matrix_flag.
  - apply send_reset_command_preserves; reflexivity.
  - auto with frame.
  - auto with frame.
  - auto with frame.
  - apply start_multicast_listener_flag.
  - apply preserves_skip.
Qed.

(** ** Reset sequence *)

Lemma try_finally_clears_flag (body : action) (s : state) :
  reset_in_progress
    (snd (try_finally body (exec (set_reset_in_progress false)) s)) = false.
Proof.
  unfold try_finally. destruct (body s) as [[|] s1]; reflexivity.
Qed.

Lemma button_pressed_handler_idle (s : state) :
  reset_in_progress s = false ->
  fst (button_pressed_handler s) = true
  /\ reset_in_progress (snd (button_pressed_handler s)) = true.
Proof.
  intros H. unfold button_pressed_handler. cbn. rewrite H. cbn. auto.
Qed.

Lemma button_pressed_handler_busy (s : state) :
  reset_in_progress s = true ->
  button_pressed_handler s =
    (false, emit ELedOff (emit (ESleep (1 # 10)) (emit ELedOn s))).
Proof.
  intros H. unfold button_pressed_handler. cbn. rewrite H. reflexivity.
Qed.

Ltac thread_line :=
  unfold reset_thread_step at 1;
  cbn [reset_thread_run reset_line Nat.ltb Nat.leb finally_pc fst snd];
  unfold yellow_led_on, yellow_led_off, sleep, print, exec, skip.

(** A reset thread that is never interrupted computes what
    [handle_reset_sequence] computes. *)
Lemma reset_thread_run_whole (e : nat -> io) (s : state) :
  reset_thread_run 9 e 0 s = Some (snd (handle_reset_sequence e s)).
Proof.
  unfold handle_reset_sequence, try_finally, try_except, seq.
  unfold yellow_led_on, yellow_led_off, sleep, print, exec.
  cbn [reset_thread_run]. thread_line.
  thread_line.
  destruct (stop_multicast_listener (e 1%nat) (emit ELedOn s)) as [[|] s1];
    [|repeat thread_line; reflexivity].
  thread_line.
  destruct (clear_led_matrix (e 2%nat) s1) as [[|] s2];
    [|repeat thread_line; reflexivity].
  thread_line.
  destruct (send_reset_command (e 3%nat) s2) as [[|] s3];
    [|repeat thread_line; reflexivity].
  do 4 thread_line.
  destruct (start_multicast_listener (e 7%nat) _) as [[|] s4];
    repeat thread_line; reflexivity.
Qed.

(** ** The orchestrator flag along a run *)

(** A global that the packet path (queue, throttle, accumulator, log)
    never assigns. *)
Definition off_packet_path {A : Type} (f : state -> A) : Prop :=
  (forall t s, f (emit (EPrint t) s) = f s)
  /\ (forall v s, f (set_packet_queue v s) = f s)
  /\ (forall v s, f (set_last_process_time v s) = f s)
  /\ (forall v s, f (set_packet_count v s) = f s)
  /\ (forall v s, f (set_light_value_accumulator v s) = f s)
  /\ (forall v s, f (set_log_writer v s) = f s).

Section PacketPathFrame.

Context {A : Type} (f : state -> A) (Hf : off_packet_path f).

Lemma log_master_data_preserves (e : io) (ip : string) (v : Z) (s : state) :
  f (log_master_data e ip v s) = f s.
Proof.
  destruct Hf as (He & _ & Ht & Hc & Ha & Hw).
  unfold log_master_data.
  destruct (Qlt_bool _ _); [reflexivity|]. cbv zeta.
  match goal with
  | |- f (match ?x with _ => _ end) = _ => destruct x
  end; [destruct (raises e F_writerow)|];
    rewrite ?He, ?Hw, ?Ha, ?Hc, ?Ht; reflexivity.
Qed.

Lemma process_record_preserves (e : io) (message : string) (addr : address) :
  preserves f (process_record int e message addr).
Proof.
  intros s. unfold process_record.
  destruct (3 <=? _)%nat; [|reflexivity].
  destruct (int (nth 0 _ _)) as [flag|]; [|reflexivity].
  destruct (int (nth 1 _ _)) as [v|]; [|reflexivity].
  destruct (flag =? 1); [apply log_master_data_preserves|reflexivity].
Qed.

Lemma process_loop_preserves (n i : nat) (e : nat -> io) :
  preserves f (process_loop int n i e).
Proof.
  revert i. induction n as [|n IH]; intros i s; [reflexivity|].
  cbn [process_loop]. destruct (packet_queue s) as [|[message addr] rest];
    [reflexivity|].
  destruct Hf as (_ & Hq & _).
  exact (preserves_seq f _ _
           (preserves_exec f (set_packet_queue rest) (Hq rest))
           (preserves_seq _ _ _ (process_record_preserves (e i) message addr)
              (IH (S i))) s).
Qed.

Lemma process_packets_preserves (e : nat -> io) :
  preserves f (process_packets int e).
Proof.
  unfold process_packets. apply preserves_try_except.
  - apply process_loop_preserves.
  - apply preserves_exec. intros s. apply Hf.
Qed.

End PacketPathFrame.

Ltac off_packet_path := repeat split; intros; reflexivity.

Lemma process_packets_flag (e : nat -> io) :
  preserves reset_in_progress (process_packets int e).
Proof. apply process_packets_preserves. off_packet_path. Qed.

Lemma matrix_update_iteration_flag (e : io) (s : state) :
  reset_in_progress (matrix_update_iteration e s) = reset_in_progress s.
Proof.
  unfold matrix_update_iteration, try_except, matrix_update_body.
  destruct (fire_due e s); [|reflexivity].
  destruct (avg_light (light_value_accumulator s)); [|reflexivity].
  cbn zeta. cbn [snd].
  match goal with
  | |- context [update_led_matrix e ?t] =>
      destruct (update_led_matrix_frame e t) as (_ & _ & _ & Hr & _)
  end.
  cbn in *. exact Hr.
Qed.

(** Either no reset thread is alive and the flag is down, or exactly one is
    alive and the flag is up. *)
Definition orchestrator_inv (w : system) : Prop :=
  (reset_threads w = [] /\ reset_in_progress (globals w) = false)
  \/ (exists pc, reset_threads w = [pc] /\ reset_in_progress (globals w) = true).

Lemma reset_thread_step_flag (e : io) (pc : nat) (s : state) :
  match reset_thread_step e pc s with
  | (Some _, s') => reset_in_progress s' = reset_in_progress s
  | (None, s') => reset_in_progress s' = false
  end.
Proof.
  unfold reset_thread_step. destruct (pc <? finally_pc)%nat; [|reflexivity].
  pose proof (reset_line_flag pc e s) as H.
  destruct (reset_line pc e s) as [[|] s']; exact H.
Qed.

Lemma step_orchestrator_inv (ev : event) (w : system) :
  orchestrator_inv w -> orchestrator_inv (step int ev w).
Proof.
  intros H. destruct ev as [|i e|e|message addr|e]; cbn [step].
  - destruct H as [[Ht Hf]|[pc [Ht Hf]]].
    + destruct (button_pressed_handler_idle _ Hf) as [H1 H2].
      destruct (button_pressed_handler (globals w)) as [[|] s']; cbn in *;
        [|discriminate].
      right. exists 0%nat. rewrite Ht. auto.
    + rewrite (button_pressed_handler_busy _ Hf).
      right. exists pc. auto.
  - destruct H as [[Ht Hf]|[pc [Ht Hf]]].
    + rewrite Ht. destruct i; cbn; left; auto.
    + rewrite Ht. destruct i as [|i]; cbn [nth_error].
      * pose proof (reset_thread_step_flag e pc (globals w)) as Hs.
        destruct (reset_thread_step e pc (globals w)) as [[pc'|] s']; cbn.
        -- right. exists pc'. split; [reflexivity|cbn; congruence].
        -- left. auto.
      * destruct i; cbn; right; exists pc; auto.
  - pose proof (process_packets_flag e (globals w)) as Hs.
    destruct H as [[Ht Hf]|[pc [Ht Hf]]]; [left|right; exists pc]; cbn;
      split; congruence.
  - destruct (stop_listening (globals w)); [exact H|].
    destruct H as [[Ht Hf]|[pc [Ht Hf]]]; [left|right; exists pc]; cbn; auto.
  - destruct (MATRIX_ENABLED (globals w) && negb (stop_listening (globals w)));
      [|exact H].
    pose proof (matrix_update_iteration_flag e (globals w)) as Hs.
    destruct H as [[Ht Hf]|[pc [Ht Hf]]]; [left|right; exists pc]; cbn;
      split; congruence.
Qed.

Lemma run_app (evs1 evs2 : list event) (w : system) :
  run int (evs1 ++ evs2) w = run int evs2 (run int evs1 w).
Proof. unfold run. apply fold_left_app. Qed.

Lemma run_orchestrator_inv (evs : list event) (w : system) :
  orchestrator_inv w -> orchestrator_inv (run int evs w).
Proof.
  revert w. induction evs as [|ev evs IH]; intros w H; [exact H|].
  cbn. apply IH, step_orchestrator_inv, H.
Qed.

Lemma boot_orchestrator_inv (e : io) (m : bool) :
  orchestrator_inv (boot e m).
Proof.
  left. split; [reflexivity|].
  unfold boot. cbn [globals].
  apply (start_multicast_listener_flag e (initial_state m)).
Qed.

Lemma length_replace_nth {A : Type} (i : nat) (x : A) (l : list A) :
  length (replace_nth i x l) = length l.
Proof.
  revert i. induction l as [|h t IH]; intros [|i]; cbn; auto.
Qed.

Lemma length_remove_nth {A : Type} (i : nat) (l : list A) (x : A) :
  nth_error l i = Some x -> S (length (remove_nth i l)) = length l.
Proof.
  revert i. induction l as [|h t IH]; intros [|i] H; cbn in *;
    try discriminate; auto.
Qed.

Lemma resets_started_idle_presses (evs : list event) (w : system) :
  resets_started int evs w = idle_presses int evs w.
Proof.
  revert w. induction evs as [|ev evs IH]; intros w; [reflexivity|].
  cbn [resets_started idle_presses]. rewrite IH. f_equal.
  destruct ev; try reflexivity.
  unfold button_pressed_handler. cbn.
  destruct (reset_in_progress (globals w)); reflexivity.
Qed.

Lemma resets_balance (evs : list event) (w : system) :
  (resets_started int evs w + length (reset_threads w) =
   resets_finished int evs w + length (reset_threads (run int evs w)))%nat.
Proof.
  revert w. induction evs as [|ev evs IH]; intros w; [reflexivity|].
  cbn [resets_started resets_finished run fold_left].
  specialize (IH (step int ev w)). unfold run in IH.
  destruct ev as [|i e|e|message addr|e]; cbn [step] in *.
  - destruct (button_pressed_handler (globals w)) as [[|] s']; cbn in *;
      [rewrite length_app in IH; cbn in IH|]; lia.
  - destruct (nth_error (reset_threads w) i) as [pc|] eqn:N; [|cbn in *; lia].
    destruct (reset_thread_step e pc (globals w)) as [[pc'|] s']; cbn in *.
    + rewrite length_replace_nth in IH. lia.
    + pose proof (length_remove_nth _ _ _ N). lia.
  - cbn in *. lia.
  - destruct (stop_listening (globals w)); cbn in *; lia.
  - destruct (MATRIX_ENABLED (globals w) && negb (stop_listening (globals w)));
      cbn in *; lia.
Qed.

Lemma reset_thread_run_total (e : nat -> io) (fuel pc : nat) (s : state) :
  (1 <= fuel)%nat -> (9 - pc <= fuel)%nat ->
  exists s', reset_thread_run fuel e pc s = Some s'
             /\ reset_in_progress s' = false.
Proof.
  revert pc s. induction fuel as [|fuel IH]; intros pc s H1 H2; [lia|].
  cbn [reset_thread_run]. unfold reset_thread_step.
  destruct (Nat.ltb_spec pc finally_pc) as [Hlt|Hge].
  - unfold finally_pc in Hlt.
    destruct (reset_line pc (e pc) s) as [[|] s']; apply IH;
      unfold finally_pc; lia.
  - eexists. split; reflexivity.
Qed.

(** C5.  Whatever the calls of the reset sequence do, return or raise, the
    sequence ends with [reset_in_progress] false, and the next button
    press starts a new reset; a reset thread run line by line ends after
    at most nine lines in the same state; along every run of the whole
    program the flag is down whenever no reset thread is alive. *)
Theorem reset_flag_always_cleared :
  forall (e : nat -> io) (s : state),
    let s' := snd (handle_reset_sequence e s) in
    reset_in_progress s' = false
    /\ reset_thread_run 9 e 0 s = Some s'
    /\ fst (button_pressed_handler s') = true
    /\ reset_in_progress (snd (button_pressed_handler s')) = true
    /\ (forall (pc : nat) (s0 : state),
          exists s1, reset_thread_run 9 e pc s0 = Some s1
                     /\ reset_in_progress s1 = false)
    /\ (forall (evs : list event) (e0 : io) (m : bool),
          let w := run int evs (boot e0 m) in
          reset_threads w = [] <-> reset_in_progress (globals w) = false).
Proof.
  intros e s s'.
  assert (Hf : reset_in_progress s' = false)
    by apply try_finally_clears_flag.
  split; [exact Hf|].
  split; [apply reset_thread_run_whole|].
  split; [apply button_pressed_handler_idle, Hf|].
  split; [apply button_pressed_handler_idle, Hf|].
  split.
  - intros pc s0. apply reset_thread_run_total; lia.
  - intros evs e0 m w.
    destruct (run_orchestrator_inv evs _ (boot_orchestrator_inv e0 m))
      as [[Ht Hw]|[pc [Ht Hw]]]; fold w in Ht, Hw; rewrite Ht, Hw;
      split; intros; congruence.
Qed.

(** ** The callback that sleeps beside the other threads *)

Lemma button_pressed_handler_split (s : state) :
  button_pressed_handler s = handler_wakes (handler_arrives s).
Proof. reflexivity. Qed.

Lemma handler_wakes_idle (s : state) :
  reset_in_progress s = false ->
  fst (handler_wakes s) = true
  /\ reset_in_progress (snd (handler_wakes s)) = true.
Proof. intros H. unfold handler_wakes. cbn. rewrite H. cbn. auto. Qed.

Lemma handler_wakes_busy (s : state) :
  reset_in_progress s = true -> handler_wakes s = (false, emit ELedOff s).
Proof. intros H. unfold handler_wakes. cbn. rewrite H. reflexivity. Qed.

(** The program counter of every live reset thread is one of the lines 0
    to 7 or the [finally] clause. *)
Definition lines_ok (w : system) : Prop :=
  forall pc, In pc (reset_threads w) -> (pc <= finally_pc)%nat.

Definition press_inv (b : press_system) : Prop :=
  orchestrator_inv (sys b) /\ lines_ok (sys b).

Lemma In_replace_nth {A : Type} (i : nat) (x y : A) (l : list A) :
  In y (replace_nth i x l) -> y = x \/ In y l.
Proof.
  revert i. induction l as [|h t IH]; intros [|i] H; cbn in *; try tauto.
  - destruct H as [H|H]; auto.
  - destruct H as [H|H]; [auto|]. destruct (IH i H); auto.
Qed.

Lemma In_remove_nth {A : Type} (i : nat) (y : A) (l : list A) :
  In y (remove_nth i l) -> In y l.
Proof.
  revert i. induction l as [|h t IH]; intros [|i] H; cbn in *; try tauto.
  destruct H as [H|H]; [auto|]. right. exact (IH i H).
Qed.

Lemma reset_thread_step_next (e : io) (pc pc' : nat) (s : state) :
  fst (reset_thread_step e pc s) = Some pc' ->
  (pc < finally_pc)%nat /\ (pc' = S pc \/ pc' = finally_pc).
Proof.
  unfold reset_thread_step.
  destruct (Nat.ltb_spec pc finally_pc) as [Hlt|Hge]; [|discriminate].
  destruct (reset_line pc e s) as [[|] s']; cbn; intros H;
    injection H as <-; auto.
Qed.

Lemma reset_thread_step_finally (e : io) (pc : nat) (s : state) :
  (finally_pc <= pc)%nat ->
  reset_thread_step e pc s = (None, set_reset_in_progress false s).
Proof.
  intros H. unfold reset_thread_step.
  destruct (Nat.ltb_spec pc finally_pc) as [Hlt|Hge]; [lia|reflexivity].
Qed.

Lemma step_lines_ok (ev : event) (w : system) :
  lines_ok w -> lines_ok (step int ev w).
Proof.
  intros H. destruct ev as [|i e|e|message addr|e]; cbn [step].
  - destruct (button_pressed_handler (globals w)) as [[|] s'];
      [|exact H].
    intros pc Hin. cbn [reset_threads] in Hin. apply in_app_or in Hin.
    destruct Hin as [Hin|[<-|[]]]; [apply H, Hin|unfold finally_pc; lia].
  - destruct (nth_error (reset_threads w) i) as [pc|] eqn:N; [|exact H].
    destruct (reset_thread_step e pc (globals w)) as [[pc'|] s'] eqn:E;
      intros x Hin; cbn [reset_threads] in Hin.
    + apply In_replace_nth in Hin. destruct Hin as [->|Hin]; [|apply H, Hin].
      destruct (reset_thread_step_next e pc pc' (globals w)) as [Hlt Hn];
        [rewrite E; reflexivity|].
      destruct Hn as [->| ->]; lia.
    + apply In_remove_nth in Hin. apply H, Hin.
  - exact H.
  - destruct (stop_listening (globals w)); exact H.
  - destruct (MATRIX_ENABLED (globals w) && negb (stop_listening (globals w)));
      exact H.
Qed.

Lemma press_step_inv (pev : press_event) (b : press_system) :
  press_inv b -> press_inv (press_step int pev b).
Proof.
  intros [Ho Hl]. destruct pev as [| |ev]; cbn [press_step].
  - destruct (handler_sleeps b); [split; assumption|].
    split; [|exact Hl].
    destruct Ho as [[Ht Hf]|[pc [Ht Hf]]]; [left|right; exists pc]; cbn; auto.
  - destruct (handler_sleeps b); [|split; assumption].
    destruct Ho as [[Ht Hf]|[pc [Ht Hf]]].
    + destruct (handler_wakes_idle _ Hf) as [H1 H2].
      destruct (handler_wakes (globals (sys b))) as [[|] s']; cbn in *;
        [|discriminate].
      split.
      * right. exists 0%nat. rewrite Ht. auto.
      * intros x Hin. cbn in Hin. rewrite Ht in Hin.
        destruct Hin as [<-|[]]. unfold finally_pc. lia.
    + rewrite (handler_wakes_busy _ Hf). split; [|exact Hl].
      right. exists pc. auto.
  - destruct ev as [|i e|e|message addr|e]; cbn [press_step];
      try (split; [apply step_orchestrator_inv|apply step_lines_ok];
           assumption).
    split; assumption.
Qed.

Lemma press_run_inv (pevs : list press_event) (b : press_system) :
  press_inv b -> press_inv (press_run int pevs b).
Proof.
  revert b. induction pevs as [|pev pevs IH]; intros b H; [exact H|].
  cbn. apply IH, press_step_inv, H.
Qed.

Lemma press_boot_inv (e : io) (m : bool) : press_inv (press_boot e m).
Proof.
  split; [apply boot_orchestrator_inv|]. intros pc [].
Qed.

Lemma sequences_started_clear_tests (pevs : list press_event)
    (b : press_system) :
  sequences_started int pevs b = clear_tests int pevs b.
Proof.
  revert b. induction pevs as [|pev pevs IH]; intros b; [reflexivity|].
  cbn [sequences_started clear_tests]. rewrite IH. f_equal.
  destruct pev; try reflexivity.
  unfold handler_wakes. cbn.
  destruct (handler_sleeps b); [|reflexivity].
  destruct (reset_in_progress (globals (sys b))); reflexivity.
Qed.

Lemma sequences_balance (pevs : list press_event) (b : press_system) :
  (sequences_started int pevs b + length (reset_threads (sys b)) =
   sequences_finished int pevs b
   + length (reset_threads (sys (press_run int pevs b))))%nat.
Proof.
  revert b. induction pevs as [|pev pevs IH]; intros b; [reflexivity|].
  cbn [sequences_started sequences_finished press_run fold_left].
  specialize (IH (press_step int pev b)). unfold press_run in IH.
  destruct pev as [| |ev].
  - cbn [press_step] in *. destruct (handler_sleeps b); cbn in *; lia.
  - cbn [press_step] in *. destruct (handler_sleeps b); cbn [andb] in *;
      [|lia].
    destruct (handler_wakes (globals (sys b))) as [[|] s']; cbn in *;
      [rewrite length_app in IH; cbn in IH|]; lia.
  - pose proof (resets_balance [ev] (sys b)) as Hb.
    destruct ev as [|i e|e|message addr|e]; cbn [press_step] in IH |- *;
      cbn [resets_started run fold_left sys] in Hb, IH |- *;
      try lia.
    cbn [resets_finished]. lia.
Qed.

Lemma reset_lines_S (e : nat -> io) (k n : nat) :
  reset_lines e k (S n) = ResetLine 0 (e k) :: reset_lines e (S k) n.
Proof. reflexivity. Qed.

Lemma run_reset_lines_idle (e : nat -> io) (n k : nat) (s : state) :
  run int (reset_lines e k n) (mkSystem s []) = mkSystem s [].
Proof.
  revert k. induction n as [|n IH]; intros k; [reflexivity|].
  rewrite reset_lines_S. exact (IH (S k)).
Qed.

Lemma step_reset_line (e : io) (pc : nat) (s : state) :
  step int (ResetLine 0 e) (mkSystem s [pc]) =
    match reset_thread_step e pc s with
    | (Some pc', s') => mkSystem s' [pc']
    | (None, s') => mkSystem s' []
    end.
Proof.
  cbn [step globals reset_threads nth_error].
  destruct (reset_thread_step e pc s) as [[pc'|] s']; reflexivity.
Qed.

(** The lines of one reset thread, taken as events of the whole program
    with nothing in between, compute what the thread computes alone. *)
Lemma run_reset_lines (e : nat -> io) (n k pc : nat) (s s' : state) :
  k = pc \/ (finally_pc <= pc)%nat ->
  reset_thread_run n e pc s = Some s' ->
  run int (reset_lines e k n) (mkSystem s [pc]) = mkSystem s' [].
Proof.
  revert k pc s. induction n as [|n IH]; intros k pc s Hk Hr; [discriminate|].
  rewrite reset_lines_S.
  change (run int (ResetLine 0 (e k) :: reset_lines e (S k) n)
            (mkSystem s [pc]))
    with (run int (reset_lines e (S k) n)
            (step int (ResetLine 0 (e k)) (mkSystem s [pc]))).
  rewrite step_reset_line. cbn [reset_thread_run] in Hr.
  assert (E : reset_thread_step (e k) pc s = reset_thread_step (e pc) pc s).
  { destruct Hk as [->|Hk]; [reflexivity|].
    rewrite !reset_thread_step_finally by exact Hk. reflexivity. }
  rewrite E.
  destruct (reset_thread_step (e pc) pc s) as [[pc'|] s1] eqn:E1.
  - apply IH; [|exact Hr].
    destruct (reset_thread_step_next (e pc) pc pc' s) as [Hlt Hn];
      [rewrite E1; reflexivity|].
    destruct Hk as [->|Hk]; [|lia].
    destruct Hn as [->| ->]; [left; reflexivity|right; lia].
  - injection Hr as <-. apply run_reset_lines_idle.
Qed.

(** A live reset thread that gets its turns ends, with the flag down,
    after as many lines as lie between its program counter and the end of
    its [finally] clause. *)
Lemma run_reset_lines_ends (e : nat -> io) (n k pc : nat) (s : state) :
  (pc <= finally_pc)%nat -> (9 - pc <= n)%nat ->
  exists s',
    run int (reset_lines e k n) (mkSystem s [pc]) = mkSystem s' []
    /\ reset_in_progress s' = false.
Proof.
  unfold finally_pc.
  revert k pc s. induction n as [|n IH]; intros k pc s Hpc Hn; [lia|].
  rewrite reset_lines_S.
  change (run int (ResetLine 0 (e k) :: reset_lines e (S k) n)
            (mkSystem s [pc]))
    with (run int (reset_lines e (S k) n)
            (step int (ResetLine 0 (e k)) (mkSystem s [pc]))).
  rewrite step_reset_line.
  destruct (reset_thread_step (e k) pc s) as [[pc'|] s1] eqn:E1.
  - destruct (reset_thread_step_next (e k) pc pc' s) as [Hlt Hn'];
      [rewrite E1; reflexivity|].
    unfold finally_pc in *. apply IH; destruct Hn' as [->| ->]; lia.
  - pose proof (reset_thread_step_flag (e k) pc s) as Hf.
    rewrite E1 in Hf. exists s1. split; [apply run_reset_lines_idle|exact Hf].
Qed.

Lemma press_run_reset_lines (e : nat -> io) (n k : nat) (b : press_system) :
  press_run int (map Other (reset_lines e k n)) b =
    mkPressSystem (run int (reset_lines e k n) (sys b)) (handler_sleeps b).
Proof.
  revert k b. induction n as [|n IH]; intros k b; [destruct b; reflexivity|].
  rewrite reset_lines_S. cbn [map].
  change (press_run int (Other (ResetLine 0 (e k))
                           :: map Other (reset_lines e (S k) n)) b)
    with (press_run int (map Other (reset_lines e (S k) n))
            (press_step int (Other (ResetLine 0 (e k))) b)).
  rewrite IH. reflexivity.
Qed.

(** C8 (amended).  The button callback blinks the LED for a tenth of a
    second and only then tests [reset_in_progress]; the other threads run
    during the blink.  Along every run of the program from start-up: at
    most one reset thread is alive, and one is alive exactly when the flag
    is true; a callback that finds the flag true when it tests it switches
    the LED off and starts nothing; a callback that finds it false starts
    one thread at its first line; the number of reset threads started
    equals the number of callbacks that found the flag false, and every
    started thread has either run through its [finally] clause or is the
    one alive.  A thread that has just been started and gets nine turns
    computes, line by line, what [handle_reset_sequence] computes, and is
    gone afterwards; a live thread at any line is gone, with the flag
    down, after the turns that remain to it.  The callback in one piece
    is the arrival followed by the wake-up. *)
Theorem single_reset_in_flight :
  forall (pevs : list press_event) (e : io) (m : bool),
    let b0 := press_boot e m in
    let b := press_run int pevs b0 in
    let w := sys b in
    (length (reset_threads w) <= 1)%nat
    /\ (reset_in_progress (globals w) = true <->
        length (reset_threads w) = 1%nat)
    /\ (handler_sleeps b = true ->
        reset_in_progress (globals w) = true ->
        press_step int Wake b =
          mkPressSystem
            (mkSystem (emit ELedOff (globals w)) (reset_threads w)) false)
    /\ (handler_sleeps b = true ->
        reset_in_progress (globals w) = false ->
        reset_threads (sys (press_step int Wake b)) = [0%nat]
        /\ reset_in_progress (globals (sys (press_step int Wake b))) = true)
    /\ sequences_started int pevs b0 = clear_tests int pevs b0
    /\ sequences_started int pevs b0 =
         (sequences_finished int pevs b0 + length (reset_threads w))%nat
    /\ (forall es : nat -> io,
          reset_threads w = [0%nat] ->
          sys (press_run int (map Other (reset_lines es 0 9)) b) =
            mkSystem (snd (handle_reset_sequence es (globals w))) [])
    /\ (forall (pc : nat) (es : nat -> io),
          reset_threads w = [pc] ->
          let b' :=
            press_run int (map Other (reset_lines es pc (9 - pc))) b in
          (pc <= finally_pc)%nat
          /\ reset_threads (sys b') = []
          /\ reset_in_progress (globals (sys b')) = false)
    /\ (forall s,
          button_pressed_handler s = handler_wakes (handler_arrives s)).
Proof.
  intros pevs e m b0 b w.
  destruct (press_run_inv pevs _ (press_boot_inv e m)) as [Hinv Hlines].
  fold b0 in Hinv, Hlines. fold b in Hinv, Hlines. fold w in Hinv, Hlines.
  split; [|split; [|split; [|split; [|split; [|split; [|split; [|split]]]]]]].
  - destruct Hinv as [[Ht _]|[pc [Ht _]]]; rewrite Ht; cbn; lia.
  - destruct Hinv as [[Ht Hf]|[pc [Ht Hf]]]; rewrite Ht, Hf; cbn;
      split; intros; congruence.
  - intros Hs Hf. cbn [press_step]. rewrite Hs. fold w.
    rewrite (handler_wakes_busy _ Hf). reflexivity.
  - intros Hs Hf. cbn [press_step]. rewrite Hs. fold w.
    destruct Hinv as [[Ht _]|[pc [_ Hf']]]; [|congruence].
    destruct (handler_wakes_idle _ Hf) as [H1 H2].
    destruct (handler_wakes (globals w)) as [[|] s']; cbn in *;
      [|discriminate].
    rewrite Ht. auto.
  - apply sequences_started_clear_tests.
  - pose proof (sequences_balance pevs b0) as Hb. fold b in Hb. fold w in Hb.
    change (length (reset_threads (sys b0))) with 0%nat in Hb. lia.
  - intros es Ht. rewrite press_run_reset_lines. cbn [sys]. fold w.
    destruct w as [g ts]. cbn [reset_threads globals] in *. subst ts.
    apply run_reset_lines; [left; reflexivity|apply reset_thread_run_whole].
  - intros pc es Ht b'.
    assert (Hpc : (pc <= finally_pc)%nat)
      by (apply Hlines; rewrite Ht; left; reflexivity).
    split; [exact Hpc|].
    unfold b'. rewrite press_run_reset_lines. cbn [sys]. fold w.
    destruct w as [g ts]. cbn [reset_threads globals] in *. subst ts.
    destruct (run_reset_lines_ends es (9 - pc) pc pc g Hpc (Nat.le_refl _))
      as (s' & -> & Hf).
    split; [reflexivity|exact Hf].
  - intros s. apply button_pressed_handler_split.
Qed.

(** ** Packet processor *)



Lemma process_record_master (e : io) (message : string) (addr : address)
    (s : state) (v : Z) :
  (3 <= length (split ","%char message))%nat ->
  int (nth 0 (split ","%char message) EmptyString) = Some 1 ->
  int (nth 1 (split ","%char message) EmptyString) = Some v ->
  process_record int e message addr s =
    (Returned, log_master_data e (fst addr) v s).
Proof.
  intros H3 H0 H1. unfold process_record.
  destruct (Nat.leb_spec 3 (length (split ","%char message))); [|lia].
  rewrite H0, H1. reflexivity.
Qed.

Lemma process_loop_head (n i : nat) (e : nat -> io) (s : state)
    (message : string) (addr : address) (rest : list (string * address)) :
  packet_queue s = (message, addr) :: rest ->
  process_loop int (S n) i e s =
    match process_record int (e i) message addr (set_packet_queue rest s) with
    | (Returned, s') => process_loop int n (S i) e s'
    | (Raised, s') => (Raised, s')
    end.
Proof.
  intros H. cbn [process_loop]. rewrite H. reflexivity.
Qed.


(** C4 (amended).  A record with at least three fields whose first field
    reads as 1 and whose second field reads as [v], met when the throttle
    lets it pass, puts [v] in the accumulator and, when a session log is
    open and the write does not raise, adds exactly one row to it, with
    the sender's address and [v]; with no log open nothing is written. *)
Theorem accepted_reading_logged :
  forall (e : io) (message : string) (addr : address) (s : state) (v : Z),
    let parts := split ","%char message in
    (3 <= length parts)%nat ->
    int (nth 0 parts EmptyString) = Some 1 ->
    int (nth 1 parts EmptyString) = Some v ->
    (DATA_THROTTLE <= time_time e - last_process_time s)%Q ->
    exists s',
      process_record int e message addr s = (Returned, s')
      /\ light_value_accumulator s' = light_value_accumulator s ++ [v]
      /\ last_process_time s' = time_time e
      /\ (forall rows,
            log_writer s = Some rows ->
            raises e F_writerow = false ->
            log_writer s' =
              Some (rows ++ [Data (datetime_now e) (fst addr) v]))
      /\ (log_writer s = None -> log_writer s' = None).
Proof.
  intros e message addr s v parts H3 H0 H1 Ht.
  exists (log_master_data e (fst addr) v s).
  split; [apply process_record_master; assumption|].
  destruct (log_master_data_accepted e (fst addr) v s Ht) as (Hl & _ & Ha & Hw).
  split; [exact Ha|]. split; [exact Hl|]. split.
  - intros rows Hrows Hr. rewrite Hw, Hrows, Hr. reflexivity.
  - intros Hn. rewrite Hw, Hn. reflexivity.
Qed.

(** ** Stop, clear and start, case by case *)

Ltac open_actions :=
  unfold start_multicast_listener, stop_multicast_listener, clear_led_matrix,
    create_new_log_file, close_log_file, update_led_matrix, try_except, seq,
    when, raise_when, exec, print, skip; cbn.

Ltac world_cases :=
  repeat match goal with
    | |- context [raises ?e ?p] => destruct (raises e p) eqn:?; cbn
    | |- context [MATRIX_ENABLED ?s] =>
        is_var s; destruct (MATRIX_ENABLED s) eqn:?; cbn
    | |- context [listening_thread ?s] =>
        is_var s; destruct (listening_thread s) eqn:?; cbn
    | |- context [log_writer ?s] =>
        is_var s; destruct (log_writer s) eqn:?; cbn
    end.

Lemma clear_led_matrix_eq (e : io) (s : state) :
  clear_led_matrix e s =
    (Returned,
     if negb (MATRIX_ENABLED s) then s
     else if raises e F_matrix_clear then
            emit (EPrint "Error clearing LED matrix") s
          else
            set_light_value_accumulator []
              (set_matrix_columns [] (emit EMatrixClear s))).
Proof. open_actions. world_cases; reflexivity. Qed.

Lemma start_multicast_listener_queue (e : io) (s : state) :
  packet_queue (snd (start_multicast_listener e s)) = [].
Proof. open_actions. world_cases; reflexivity. Qed.

Lemma start_multicast_listener_forgets_queue (e : io) (s : state)
    (q : list (string * address)) :
  start_multicast_listener e (set_packet_queue q s) =
  start_multicast_listener e s.
Proof. open_actions. world_cases; reflexivity. Qed.

Lemma start_multicast_listener_fresh (e : io) (s : state) :
  calm e -> MATRIX_ENABLED s = true ->
  fst (start_multicast_listener e s) = Returned
  /\ pipeline_view (snd (start_multicast_listener e s)) =
       (false, Some ListenerThread, Some (datetime_now e), Some [Header],
        [], [], time_time e, [], 0, 0%Q).
Proof.
  intros Hc Hm. open_actions. rewrite Hm. cbn.
  rewrite !Hc. cbn. rewrite Hm. cbn. split; reflexivity.
Qed.

(** ** Joins along a run *)

Lemma joins_app (l1 l2 : list effect) : joins (l1 ++ l2) = joins l1 ++ joins l2.
Proof. apply flat_map_app. Qed.

Lemma joins_view_emit (x : effect) (s : state) :
  joins [x] = [] -> joins_view (emit x s) = joins_view s.
Proof.
  intros H. unfold joins_view. cbn [effects emit listening_thread].
  rewrite joins_app, H, app_nil_r. reflexivity.
Qed.

Ltac joins_emits :=
  repeat (rewrite joins_view_emit; [|reflexivity]).

Lemma joins_view_off_packet_path : off_packet_path joins_view.
Proof.
  repeat split; intros; try reflexivity.
  apply joins_view_emit. reflexivity.
Qed.

Lemma clear_led_matrix_joins (e : io) : preserves joins_view (clear_led_matrix e).
Proof.
  intros s. rewrite clear_led_matrix_eq. cbn [snd].
  destruct (negb (MATRIX_ENABLED s)); [reflexivity|].
  destruct (raises e F_matrix_clear).
  - apply joins_view_emit. reflexivity.
  - change (joins_view (emit EMatrixClear s) = joins_view s).
    apply joins_view_emit. reflexivity.
Qed.

Lemma matrix_update_iteration_joins (e : io) (s : state) :
  joins_view (matrix_update_iteration e s) = joins_view s.
Proof.
  unfold matrix_update_iteration, matrix_update_body, try_except at 1.
  destruct (fire_due e s); [|reflexivity].
  destruct (avg_light (light_value_accumulator s));
    [|apply joins_view_emit; reflexivity].
  open_actions. world_cases; try reflexivity.
  - match goal with
    | |- joins_view (set_last_matrix_update _ (emit ?x ?t)) = _ =>
        change (joins_view (emit x s) = joins_view s)
    end.
    apply joins_view_emit. reflexivity.
  - match goal with
    | |- joins_view (set_last_matrix_update _ (emit ?x ?t)) = _ =>
        change (joins_view (emit x s) = joins_view s)
    end.
    apply joins_view_emit. reflexivity.
Qed.

Lemma stop_multicast_listener_joins (e : io) (s : state) :
  joins_ok (joins_view s) ->
  joins_ok (joins_view (snd (stop_multicast_listener e s))).
Proof.
  intros [Hj Ht]. cbn [joins_view fst snd] in Hj, Ht.
  assert (Hgoal : forall l,
            joins l = [] \/ joins l = [(ListenerThread, 3%Q)] ->
            Forall (fun j => j = (ListenerThread, 3%Q))
              (joins (effects s ++ l))).
  { intros l Hl. rewrite joins_app. apply Forall_app. split; [exact Hj|].
    destruct Hl as [Hl|Hl]; rewrite Hl; repeat constructor. }
  open_actions. destruct Ht as [Ht|Ht]; rewrite Ht; cbn;
    world_cases; split; cbn; auto;
    rewrite <- ?app_assoc; apply Hgoal; cbn; auto.
Qed.

Lemma start_multicast_listener_joins (e : io) (s : state) :
  joins_ok (joins_view s) ->
  joins_ok (joins_view (snd (start_multicast_listener e s))).
Proof.
  intros [Hj Ht]. cbn [joins_view fst snd] in Hj, Ht.
  assert (Hgoal : forall l,
            joins l = [] ->
            Forall (fun j => j = (ListenerThread, 3%Q))
              (joins (effects s ++ l))).
  { intros l Hl. rewrite joins_app, Hl, app_nil_r. exact Hj. }
  open_actions. world_cases; split; cbn; auto;
    rewrite <- ?app_assoc; try (apply Hgoal; reflexivity);
    rewrite <- (app_nil_r (effects s)); apply Hgoal; reflexivity.
Qed.

Lemma reset_line_joins (pc : nat) (e : io) (s : state) :
  joins_ok (joins_view s) -> joins_ok (joins_view (snd (reset_line pc e s))).
Proof.
  intros H.
  destruct pc as [|[|[|[|[|[|[|[|pc]]]]]]]]; cbn [reset_line];
    try (unfold yellow_led_on, yellow_led_off, sleep, exec, skip; cbn [snd];
         joins_emits; exact H).
  - apply stop_multicast_listener_joins, H.
  - rewrite clear_led_matrix_joins. exact H.
  - rewrite (send_reset_command_preserves joins_view e); [exact H| |];
      intros; apply joins_view_emit; reflexivity.
  - apply start_multicast_listener_joins, H.
Qed.

Lemma step_joins (ev : event) (w : system) :
  joins_ok (joins_view (globals w)) ->
  joins_ok (joins_view (globals (step int ev w))).
Proof.
  intros H. destruct ev as [|i e|e|message addr|e]; cbn [step].
  - unfold button_pressed_handler. cbn.
    destruct (reset_in_progress (globals w)); cbn [globals];
      [|change (joins_view (emit (EStart ResetThread) ?t))
          with (joins_view (emit (EStart ResetThread)
                  (emit ELedOff (emit (ESleep (1 # 10))
                     (emit ELedOn (globals w))))))];
      joins_emits; exact H.
  - destruct (nth_error (reset_threads w) i) as [pc|]; [|exact H].
    unfold reset_thread_step.
    destruct (pc <? finally_pc)%nat; [|exact H].
    pose proof (reset_line_joins pc e (globals w) H) as Hl.
    destruct (reset_line pc e (globals w)) as [[|] s']; cbn [globals snd] in *;
      joins_emits; exact Hl.
  - cbn [globals].
    rewrite (process_packets_preserves joins_view joins_view_off_packet_path).
    exact H.
  - destruct (stop_listening (globals w)); exact H.
  - destruct (MATRIX_ENABLED (globals w) && negb (stop_listening (globals w)));
      [|exact H].
    cbn [globals]. rewrite matrix_update_iteration_joins. exact H.
Qed.

Lemma run_joins (evs : list event) (w : system) :
  joins_ok (joins_view (globals w)) ->
  joins_ok (joins_view (globals (run int evs w))).
Proof.
  revert w. induction evs as [|ev evs IH]; intros w H; [exact H|].
  cbn. apply IH, step_joins, H.
Qed.

Lemma boot_joins (e : io) (m : bool) :
  joins_ok (joins_view (globals (boot e m))).
Proof.
  unfold boot. cbn [globals]. apply start_multicast_listener_joins.
  split; [constructor|left; reflexivity].
Qed.

(** C6 (amended).  The stop step never raises.  It sets [stop_listening],
    the one flag that both the listener loop and the aggregator loop test,
    so that neither does anything more; it joins the thread held in
    [listening_thread], if any, with a timeout of three seconds and goes on
    whether or not the join timed out; it joins no other thread; then it
    closes the session log.  Along every run of the program every join is
    a join of the listener with a timeout of three seconds. *)
Theorem stop_step_joins_listener_only :
  forall (e : io) (s : state),
    let r := stop_multicast_listener e s in
    fst r = Returned
    /\ stop_listening (snd r) = true
    /\ listening_thread (snd r) = None
    /\ log_writer (snd r) = None
    /\ effects (snd r) =
         effects s
         ++ match listening_thread s with
            | Some t => [EJoin t 3 (join_times_out e)]
            | None => []
            end
         ++ match log_writer s with
            | Some _ => if raises e F_close then [] else [ECloseFile]
            | None => []
            end
    /\ (forall ts message addr,
          step int (Receive message addr) (mkSystem (snd r) ts) =
          mkSystem (snd r) ts)
    /\ (forall ts e',
          step int (MatrixLoop e') (mkSystem (snd r) ts) =
          mkSystem (snd r) ts)
    /\ (forall evs e0 m,
          joins_ok (joins_view (globals (run int evs (boot e0 m))))).
Proof.
  intros e s r.
  assert (H1 : fst r = Returned)
    by (unfold r; open_actions; world_cases; congruence).
  assert (H2 : stop_listening (snd r) = true)
    by (unfold r; open_actions; world_cases; congruence).
  assert (H3 : listening_thread (snd r) = None)
    by (unfold r; open_actions; world_cases; congruence).
  assert (H4 : log_writer (snd r) = None)
    by (unfold r; open_actions; world_cases; congruence).
  repeat (split; [assumption|]).
  split.
  { unfold r. open_actions. world_cases; try congruence;
      rewrite <- ?app_assoc, ?app_nil_r; reflexivity. }
  split; [intros ts message addr; cbn [step globals]; rewrite H2; reflexivity|].
  split.
  { intros ts e'. cbn [step globals]. rewrite H2, andb_false_r. reflexivity. }
  intros evs e0 m. apply run_joins, boot_joins.
Qed.

Lemma send_loop_calm (e : io) (n i : nat) (s : state) :
  calm e -> fst (send_loop e i n s) = Returned.
Proof.
  intros Hc. revert i s. induction n as [|n IH]; intros i s; [reflexivity|].
  cbn [send_loop]. unfold seq, raise_when, exec, sleep. rewrite Hc.
  apply IH.
Qed.

Lemma send_reset_command_calm (e : io) (s : state) :
  calm e -> fst (send_reset_command e s) = Returned.
Proof.
  intros Hc. unfold send_reset_command, seq, raise_when. rewrite Hc.
  apply send_loop_calm, Hc.
Qed.










Lemma start_multicast_listener_enabled (e : io) :
  preserves MATRIX_ENABLED (start_multicast_listener e).
Proof. intros s. open_actions. world_cases; congruence. Qed.





(** C10 (amended).  The start step empties the queue, whether or not one
    of its calls raises, and what it leaves behind does not depend on what
    the queue held: the records still queued at that moment are never
    decoded.  So the queue is empty right after start-up and right after
    line 7 of a reset thread. *)
Theorem start_discards_queue :
  forall (e : io) (s : state),
    packet_queue (snd (start_multicast_listener e s)) = []
    /\ (forall q,
          start_multicast_listener e (set_packet_queue q s) =
          start_multicast_listener e s)
    /\ (forall m, packet_queue (globals (boot e m)) = [])
    /\ (forall ts i,
          nth_error ts i = Some 7%nat ->
          packet_queue (globals (step int (ResetLine i e) (mkSystem s ts))) = []).
Proof.
  intros e s.
  split; [apply start_multicast_listener_queue|].
  split; [intros q; apply start_multicast_listener_forgets_queue|].
  split; [intros m; apply start_multicast_listener_queue|].
  intros ts i H. cbn [step globals reset_threads]. rewrite H.
  unfold reset_thread_step. cbn [Nat.ltb Nat.leb finally_pc reset_line].
  pose proof (start_multicast_listener_queue e s) as Hq.
  destruct (start_multicast_listener e s) as [[|] s']; cbn in *; exact Hq.
Qed.

(** ** The column history *)

Lemma lastn_lastn_app {A : Type} (n : nat) (l m : list A) :
  lastn n (lastn n l ++ m) = lastn n (l ++ m).
Proof.
  unfold lastn. rewrite !length_app, length_skipn, !skipn_app, skipn_skipn.
  rewrite length_skipn. f_equal; f_equal; lia.
Qed.

Lemma deque_append_lastn (x : Z) (d : list Z) :
  (length d <= 8)%nat -> deque_append x d = lastn 8 (d ++ [x]).
Proof.
  intros H. unfold deque_append, lastn, MATRIX_HISTORY_SIZE.
  rewrite length_app. cbn [length].
  destruct (Nat.ltb_spec (length d) 8) as [Hlt|Hge].
  - replace (length d + 1 - 8)%nat with 0%nat by lia. reflexivity.
  - replace (length d + 1 - 8)%nat with 1%nat by lia.
    destruct d as [|h t]; [cbn in Hge; lia|reflexivity].
Qed.

Lemma length_lastn {A : Type} (n : nat) (l : list A) :
  length (lastn n l) = Nat.min n (length l).
Proof. unfold lastn. rewrite length_skipn. lia. Qed.

Lemma deque_append_ok (x : Z) (d : list Z) :
  0 <= x <= 7 -> history_ok d -> history_ok (deque_append x d).
Proof.
  intros Hx [Hf Hl]. split.
  - unfold deque_append. destruct (length d <? MATRIX_HISTORY_SIZE)%nat;
      apply Forall_app; split; try (repeat constructor; lia); [exact Hf|].
    destruct d as [|h t]; [constructor|]. inversion Hf; assumption.
  - rewrite (deque_append_lastn x d Hl), length_lastn. lia.
Qed.

Lemma matrix_columns_off_packet_path : off_packet_path matrix_columns.
Proof. off_packet_path. Qed.

Lemma reset_line_columns (pc : nat) (e : io) (s : state) :
  matrix_columns (snd (reset_line pc e s)) = matrix_columns s
  \/ matrix_columns (snd (reset_line pc e s)) = [].
Proof.
  destruct pc as [|[|[|[|[|[|[|[|pc]]]]]]]]; cbn [reset_line];
    try (left; reflexivity).
  - left. open_actions. world_cases; congruence.
  - open_actions. world_cases; auto.
  - left. apply (send_reset_command_preserves matrix_columns); reflexivity.
  - open_actions. world_cases; auto.
Qed.

Lemma step_history_ok (ev : event) (w : system) :
  history_ok (matrix_columns (globals w)) ->
  history_ok (matrix_columns (globals (step int ev w))).
Proof.
  intros H. destruct ev as [|i e|e|message addr|e]; cbn [step].
  - unfold button_pressed_handler. cbn.
    destruct (reset_in_progress (globals w)); exact H.
  - destruct (nth_error (reset_threads w) i) as [pc|]; [|exact H].
    unfold reset_thread_step.
    destruct (pc <? finally_pc)%nat; [|exact H].
    pose proof (reset_line_columns pc e (globals w)) as Hl.
    destruct (reset_line pc e (globals w)) as [[|] s']; cbn in *;
      destruct Hl as [Hl|Hl]; rewrite Hl; try exact H;
      split; [constructor|cbn; lia|constructor|cbn; lia].
  - cbn [globals].
    rewrite (process_packets_preserves matrix_columns
               matrix_columns_off_packet_path).
    exact H.
  - destruct (stop_listening (globals w)); exact H.
  - destruct (MATRIX_ENABLED (globals w) && negb (stop_listening (globals w)));
      [|exact H].
    cbn [globals]. destruct (fire_due e (globals w)) eqn:F.
    + destruct (avg_light (light_value_accumulator (globals w)))
        as [avg|] eqn:Hm.
      * destruct (matrix_update_iteration_fire e _ avg F Hm) as (Hc & _).
        rewrite Hc.
        apply deque_append_ok; [apply map_value_to_height_range|exact H].
      * rewrite (matrix_update_iteration_overflow e _ F Hm). exact H.
    + rewrite (matrix_update_iteration_idle e _ F). exact H.
Qed.

Lemma run_history_ok (evs : list event) (w : system) :
  history_ok (matrix_columns (globals w)) ->
  history_ok (matrix_columns (globals (run int evs w))).
Proof.
  revert w. induction evs as [|ev evs IH]; intros w H; [exact H|].
  cbn. apply IH, step_history_ok, H.
Qed.

Lemma boot_history (e : io) (m : bool) :
  matrix_columns (globals (boot e m)) = [].
Proof. unfold boot. destruct m; open_actions; world_cases; reflexivity. Qed.

(** One event that is not a line of a reset thread extends the history by
    the height it fires, if any. *)
Lemma step_session_columns (ev : event) (w : system) :
  is_reset_line ev = false ->
  (length (matrix_columns (globals w)) <= 8)%nat ->
  matrix_columns (globals (step int ev w)) =
    lastn 8 (matrix_columns (globals w) ++ fired_heights int [ev] w).
Proof.
  intros Hev Hl.
  assert (Hsame : matrix_columns (globals w) =
                  lastn 8 (matrix_columns (globals w) ++ [])).
  { rewrite app_nil_r. unfold lastn.
    replace (length (matrix_columns (globals w)) - 8)%nat with 0%nat by lia.
    reflexivity. }
  destruct ev as [|i e|e|message addr|e]; cbn [step fired_heights];
    try discriminate.
  - unfold button_pressed_handler. cbn.
    destruct (reset_in_progress (globals w)); exact Hsame.
  - cbn [globals].
    rewrite (process_packets_preserves matrix_columns
               matrix_columns_off_packet_path).
    exact Hsame.
  - destruct (stop_listening (globals w)); exact Hsame.
  - destruct (MATRIX_ENABLED (globals w) && negb (stop_listening (globals w)));
      [|exact Hsame].
    cbn [globals andb]. destruct (fire_due e (globals w)) eqn:F.
    + destruct (avg_light (light_value_accumulator (globals w)))
        as [avg|] eqn:Hm.
      * destruct (matrix_update_iteration_fire e _ avg F Hm) as (Hc & _).
        rewrite Hc, app_nil_r. apply deque_append_lastn, Hl.
      * rewrite (matrix_update_iteration_overflow e _ F Hm). exact Hsame.
    + rewrite (matrix_update_iteration_idle e _ F). exact Hsame.
Qed.

Lemma run_session_columns (evs : list event) (w : system) :
  forallb (fun ev => negb (is_reset_line ev)) evs = true ->
  (length (matrix_columns (globals w)) <= 8)%nat ->
  matrix_columns (globals (run int evs w)) =
    lastn 8 (matrix_columns (globals w) ++ fired_heights int evs w).
Proof.
  revert w. induction evs as [|ev evs IH]; intros w Hev Hl.
  - cbn. rewrite app_nil_r. unfold lastn.
    replace (length (matrix_columns (globals w)) - 8)%nat with 0%nat by lia.
    reflexivity.
  - cbn [forallb] in Hev. apply andb_true_iff in Hev. destruct Hev as [H1 H2].
    apply negb_true_iff in H1.
    pose proof (step_session_columns ev w H1 Hl) as Hs.
    change (run int (ev :: evs) w) with (run int evs (step int ev w)).
    rewrite IH; [|exact H2|rewrite Hs, length_lastn; lia].
    rewrite Hs, lastn_lastn_app, <- app_assoc.
    cbn [fired_heights]. rewrite app_nil_r. reflexivity.
Qed.

(** C9 (amended).  Along every run from start-up each entry of the history
    lies in [0, 7] and the history holds at most eight entries.  Within
    a session, that is in a run without reset lines that starts with an
    empty history, the history is the last eight of the heights fired so
    far, in the order of the fires: it has [min 8 n] entries after [n]
    fires, so exactly eight once more than eight fires have happened;
    appending to a full history drops its oldest entry. *)
Theorem history_bounded_in_fire_order :
  forall (evs : list event) (w : system),
    forallb (fun ev => negb (is_reset_line ev)) evs = true ->
    matrix_columns (globals w) = [] ->
    let hs := fired_heights int evs w in
    let cols := matrix_columns (globals (run int evs w)) in
    cols = lastn 8 hs
    /\ length cols = Nat.min 8 (length hs)
    /\ ((8 < length hs)%nat -> length cols = 8%nat)
    /\ Forall (fun h => 0 <= h <= 7) cols
    /\ (forall x d, length d = 8%nat -> deque_append x d = tl d ++ [x])
    /\ (forall x d, (length d < 8)%nat -> deque_append x d = d ++ [x])
    /\ (forall evs' e m,
          history_ok (matrix_columns (globals (run int evs' (boot e m))))).
Proof.
  intros evs w Hev H0 hs cols.
  assert (Hc : cols = lastn 8 hs).
  { unfold cols. rewrite run_session_columns; [|exact Hev|rewrite H0; cbn; lia].
    rewrite H0. reflexivity. }
  assert (Hok : history_ok cols).
  { unfold cols. apply run_history_ok. rewrite H0.
    split; [constructor|cbn; lia]. }
  split; [exact Hc|].
  split; [rewrite Hc; apply length_lastn|].
  split; [intros Hn; rewrite Hc, length_lastn; lia|].
  split; [exact (proj1 Hok)|].
  split.
  { intros x d Hd. unfold deque_append, MATRIX_HISTORY_SIZE. rewrite Hd.
    reflexivity. }
  split.
  { intros x d Hd. unfold deque_append, MATRIX_HISTORY_SIZE.
    destruct (Nat.ltb_spec (length d) 8); [reflexivity|lia]. }
  intros evs' e m. apply run_history_ok. rewrite boot_history.
  split; [constructor|cbn; lia].
Qed.

End Properties.

(** ** The laws on concrete runs *)


(** C2 on a run: the accumulator [100, 300, 500] has mean 300 and the fire
    at 1004 appends bucket 0. *)
Lemma quantization_law_witness :
  let s := globals (run int_decimal three_readings started) in
  light_value_accumulator s = [100; 300; 500]
  /\ avg_light (light_value_accumulator s) = Some (900 # 3)
  /\ matrix_columns (matrix_update_iteration (at_time 1004) s) = [0].
Proof.
  intros s. split; [reflexivity|]. split; [reflexivity|].
  pose proof (quantization_law (at_time 1004) s eq_refl) as H.
  cbv zeta in H. destruct H as (Hfire & _).
  destruct (Hfire (900 # 3) eq_refl) as (Hc & _). rewrite Hc. reflexivity.
Defined.

(** C2 as stated fails twice.  Eight readings with sum 4095 have mean
    511.875; the program appends bucket 1 where
    [clamp(floor(mean / 512), 0, 7)] is 0.  And after one accepted reading
    of [2 * 10^308] the pass that is due at 1004 appends no bucket at all:
    the division raises, the error is printed, the accumulator keeps the
    reading and [last_matrix_update] stays at the start-up time. *)
Lemma quantization_law_counterexample :
  let w := run int_decimal eight_readings started in
  let acc := light_value_accumulator (globals w) in
  let v := run int_decimal (reading huge_reading 1001) started in
  let v' := step int_decimal (MatrixLoop (at_time 1004)) v in
  acc = [512; 512; 512; 512; 512; 512; 512; 511]
  /\ avg_light acc = Some (4095 # 8)
  /\ matrix_columns
       (globals (step int_decimal (MatrixLoop (at_time 1004)) w)) = [1]
  /\ deque_append (spec_height_512 (4095 # 8)) (matrix_columns (globals w))
     = [0]
  /\ light_value_accumulator (globals v) = [2 * 10 ^ 308]
  /\ fire_due (at_time 1004) (globals v) = true
  /\ avg_light (light_value_accumulator (globals v)) = None
  /\ globals v' = emit (EPrint "Matrix update thread error") (globals v)
  /\ matrix_columns (globals v') = []
  /\ light_value_accumulator (globals v') = [2 * 10 ^ 308]
  /\ last_matrix_update (globals v') = 1000%Q.
Proof. vm_compute. repeat split; reflexivity. Qed.



(** C4 on a run: ["1,2048,0,0"] from 10.0.0.5 with the throttle satisfied
    and the session log open gives one row with that address and 2048. *)
Lemma accepted_reading_logged_witness :
  exists s',
    process_record int_decimal (at_time 1001) "1,2048,0,0" sender
      (globals started) = (Returned, s')
    /\ log_writer s' = Some [Header; Data 1001 "10.0.0.5" 2048]
    /\ light_value_accumulator s' = [2048].
Proof.
  destruct (accepted_reading_logged int_decimal (at_time 1001) "1,2048,0,0"
              sender (globals started) 2048)
    as (s' & Hr & Ha & _ & Hw & _).
  - vm_compute. lia.
  - reflexivity.
  - reflexivity.
  - vm_compute. discriminate.
  - exists s'. split; [exact Hr|]. split; [|exact Ha].
    exact (Hw [Header] eq_refl eq_refl).
Defined.

(** C4 as stated fails: a record that arrives just before the stop step of
    a reset and is processed by the main loop after it has first field 1,
    a numeral as second field and the throttle satisfied; it is accepted
    (accumulator and last-accepted time change) but no row is written,
    because no session log is open.  With the log open and a write that
    raises, the reading is accepted as well and no row is written. *)
Lemma accepted_reading_unlogged_counterexample :
  let w := run int_decimal stop_with_one_queued started in
  let w' := step int_decimal (MainLoop (fun _ => at_time 1011)) w in
  let v := run int_decimal
             [Receive "1,2048,0,0" sender;
              MainLoop (fun _ => failing_at only_writerow 1001)] started in
  packet_queue (globals w) = [("1,2048,0,0"%string, sender)]
  /\ Qle_bool DATA_THROTTLE (1011 - last_process_time (globals w)) = true
  /\ log_writer (globals w) = None
  /\ packet_queue (globals w') = []
  /\ light_value_accumulator (globals w') = [2048]
  /\ last_process_time (globals w') = 1011%Q
  /\ log_writer (globals w') = None
  /\ light_value_accumulator (globals v) = [2048]
  /\ log_writer (globals v) = Some [Header].
Proof. vm_compute. repeat split; reflexivity. Qed.

(** C5 on a run: a reset whose broadcast raises still ends with the flag
    down, and the next press starts a new reset. *)
Lemma reset_flag_always_cleared_witness :
  let e := fun _ : nat => mkIo 1010 1010 (fun _ => true) true in
  let s' := snd (handle_reset_sequence e
                   (set_reset_in_progress true (globals started))) in
  reset_in_progress s' = false
  /\ fst (button_pressed_handler s') = true.
Proof.
  intros e s'.
  destruct (reset_flag_always_cleared int_decimal e
              (set_reset_in_progress true (globals started)))
    as (Hf & _ & Hp & _).
  split; [exact Hf|exact Hp].
Defined.

(** C6 as stated fails: after start-up with the display enabled the
    aggregator thread has been started, and the stop step joins the
    listener alone. *)
Lemma stop_step_counterexample :
  let s := globals started in
  let s' := snd (stop_multicast_listener (at_time 1010) s) in
  existsb
    (fun x => match x with EStart MatrixThread => true | _ => false end)
    (effects s) = true
  /\ joins (effects s') = [(ListenerThread, 3%Q)]
  /\ existsb
       (fun x => match x with EJoin MatrixThread _ _ => true | _ => false end)
       (effects s') = false.
Proof. vm_compute. repeat split; reflexivity. Qed.

(** C6 on a run: the stop step after start-up. *)
Lemma stop_step_joins_listener_only_witness :
  let r := stop_multicast_listener (at_time 1010) (globals started) in
  fst r = Returned
  /\ stop_listening (snd r) = true
  /\ log_writer (snd r) = None.
Proof.
  intros r.
  destruct (stop_step_joins_listener_only int_decimal (at_time 1010)
              (globals started)) as (H1 & H2 & _ & H4 & _).
  split; [exact H1|]. split; [exact H2|exact H4].
Defined.



(** C8 on a run: a callback that wakes while the reset thread is alive
    only switches the LED off; alone, the thread ends after the turns that
    remain to it. *)
Lemma single_reset_in_flight_witness :
  let b := press_run int_decimal [Arrive; Wake; Arrive]
             (press_boot (at_time 1000) true) in
  reset_threads (sys b) = [0%nat]
  /\ press_step int_decimal Wake b =
       mkPressSystem
         (mkSystem (emit ELedOff (globals (sys b))) [0%nat]) false
  /\ reset_threads
       (sys (press_run int_decimal
               (map Other (reset_lines (fun _ => at_time 1010) 0 9)) b)) = [].
Proof.
  intros b. split; [reflexivity|].
  destruct (single_reset_in_flight int_decimal [Arrive; Wake; Arrive]
              (at_time 1000) true)
    as (_ & _ & Hbusy & _ & _ & _ & _ & Hends & _).
  split; [exact (Hbusy eq_refl eq_refl)|].
  destruct (Hends 0%nat (fun _ => at_time 1010) eq_refl) as (_ & Ht & _).
  exact Ht.
Defined.

(** C8 as stated fails: a press arrives while the reset thread started by
    the press before it is at the end of its second sleep, so in
    [ResetInProgress]; during the blink the thread runs its start step and
    its [finally] clause and ends; the callback then finds the flag false
    and starts a second reset sequence. *)
Lemma press_during_reset_counterexample :
  let b1 := press_run int_decimal (press_and_seven_lines ++ [Arrive])
              (press_boot (at_time 1000) true) in
  let b2 := press_run int_decimal last_two_lines b1 in
  let b3 := press_step int_decimal Wake b2 in
  reset_in_progress (globals (sys b1)) = true
  /\ reset_threads (sys b1) = [7%nat]
  /\ handler_sleeps b1 = true
  /\ reset_in_progress (globals (sys b2)) = false
  /\ reset_threads (sys b2) = []
  /\ handler_sleeps b2 = true
  /\ reset_threads (sys b3) = [0%nat]
  /\ reset_in_progress (globals (sys b3)) = true
  /\ sequences_started int_decimal
       (press_and_seven_lines ++ [Arrive] ++ last_two_lines ++ [Wake])
       (press_boot (at_time 1000) true) = 2%nat.
Proof. vm_compute. repeat split; reflexivity. Qed.

(** C9 on a run: nine fires with heights 0, 1, ..., 7, 7 leave the last
    eight, oldest first. *)
Lemma history_bounded_in_fire_order_witness :
  fired_heights int_decimal nine_windows started = [0; 1; 2; 3; 4; 5; 6; 7; 7]
  /\ matrix_columns (globals (run int_decimal nine_windows started)) =
       [1; 2; 3; 4; 5; 6; 7; 7].
Proof.
  split; [reflexivity|].
  destruct (history_bounded_in_fire_order int_decimal nine_windows started
              eq_refl eq_refl) as (Hc & _).
  rewrite Hc. reflexivity.
Defined.

(** C9 as stated fails: nine fires, a reset and one more fire make ten
    fires since start-up, and the history holds one entry, the bucket of
    the one fire of the new session. *)
Lemma history_restarts_counterexample :
  let evs := nine_windows ++ whole_reset ++ window "1,512,0" 1045 in
  length (fired_heights int_decimal evs started) = 10%nat
  /\ matrix_columns (globals (run int_decimal nine_windows started)) =
       [1; 2; 3; 4; 5; 6; 7; 7]
  /\ matrix_columns
       (globals (run int_decimal (nine_windows ++ whole_reset) started)) = []
  /\ matrix_columns (globals (run int_decimal evs started)) = [1].
Proof. vm_compute. repeat split; reflexivity. Qed.

(** C10 on a run: line 7 of a reset thread leaves the queue empty. *)
Lemma start_discards_queue_witness :
  let w := run int_decimal stop_with_two_queued started in
  packet_queue (globals w) =
    [("1,2048,0,0"%string, sender); ("1,1000,0,0"%string, other_sender)]
  /\ packet_queue
       (globals (step int_decimal (ResetLine 0 (at_time 1020))
                   (mkSystem (globals w) [7%nat]))) = [].
Proof.
  intros w. split; [reflexivity|].
  destruct (start_discards_queue int_decimal (at_time 1020) (globals w))
    as (_ & _ & _ & Hq).
  exact (Hq [7%nat] 0%nat eq_refl).
Defined.

(** C10 as stated fails: two records received before the stop step and not
    yet processed are still decoded by the main loop while the reset
    sequence goes on; the first is accepted into the accumulator, and the
    queue is already empty when the start step clears it. *)
Lemma queued_records_processed_counterexample :
  let w := run int_decimal stop_with_two_queued started in
  let w' := step int_decimal (MainLoop (fun _ => at_time 1011)) w in
  let w'' := run int_decimal rest_of_reset w' in
  stop_listening (globals w) = true
  /\ packet_queue (globals w) =
       [("1,2048,0,0"%string, sender); ("1,1000,0,0"%string, other_sender)]
  /\ packet_count (globals w) = 0
  /\ packet_queue (globals w') = []
  /\ packet_count (globals w') = 1
  /\ light_value_accumulator (globals w') = [2048]
  /\ reset_threads w'' = []
  /\ stop_listening (globals w'') = false.
Proof. vm_compute. repeat split; reflexivity. Qed.

(** * Further properties of the module *)

Section MoreProperties.

Variable int : string -> option Z.

Ltac open_actions :=
  unfold main_finally, handle_reset_sequence, start_multicast_listener,
    stop_multicast_listener, clear_led_matrix, create_new_log_file,
    close_log_file, update_led_matrix, try_finally, try_except, seq, when,
    raise_when, exec, print, sleep, yellow_led_on, yellow_led_off, skip;
  cbn.

Ltac world_cases :=
  repeat match goal with
    | |- context [raises ?e ?p] => destruct (raises e p) eqn:?; cbn
    | |- context [MATRIX_ENABLED ?s] =>
        is_var s; destruct (MATRIX_ENABLED s) eqn:?; cbn
    | |- context [listening_thread ?s] =>
        is_var s; destruct (listening_thread s) eqn:?; cbn
    | |- context [log_writer ?s] =>
        is_var s; destruct (log_writer s) eqn:?; cbn
    end.

(** ** Buckets of [map_value_to_height] *)

Lemma Qfloor_ge (k : Z) (x : Q) : k <= Qfloor x <-> (inject_Z k <= x)%Q.
Proof.
  split.
  - intros H. apply Qle_trans with (inject_Z (Qfloor x)).
    + rewrite <- Zle_Qle. exact H.
    + apply Qfloor_le.
  - intros H.
    assert (Hlt : (inject_Z k < inject_Z (Qfloor x + 1))%Q)
      by (eapply Qle_lt_trans; [exact H|apply Qlt_floor]).
    rewrite <- Zlt_Qlt in Hlt. clear H. lia.
Qed.

Lemma div_step_ge (k : Z) (q : Q) :
  (inject_Z k <= q / LIGHT_STEP)%Q <-> (inject_Z k * LIGHT_STEP <= q)%Q.
Proof.
  split; intros H.
  - apply (Qmult_le_compat_r _ _ LIGHT_STEP) in H; [|discriminate].
    unfold Qdiv in H. rewrite <- Qmult_assoc in H.
    rewrite (Qmult_comm (/ LIGHT_STEP)) in H.
    rewrite Qmult_inv_r, Qmult_1_r in H; [exact H|discriminate].
  - apply Qle_shift_div_l; [exact LIGHT_STEP_pos|exact H].
Qed.

(** X1.  Bucket [k] (for [k] from 1 to 7) is reached exactly by the
    values from [k * LIGHT_STEP] upwards: the buckets below 7 are 511.875
    wide and the top one starts at 3583.125. *)
Theorem map_value_to_height_threshold :
  forall (q : Q) (k : Z),
    1 <= k <= 7 ->
    (k <= map_value_to_height q <-> (inject_Z k * LIGHT_STEP <= q)%Q).
Proof.
  intros q k Hk. rewrite map_value_to_height_floor.
  rewrite <- div_step_ge, <- Qfloor_ge.
  generalize (Qfloor (q / LIGHT_STEP)). intros f. lia.
Qed.

Lemma map_value_to_height_threshold_witness :
  3 <= map_value_to_height 1536
  /\ ~ 3 <= map_value_to_height 1535.
Proof.
  split.
  - apply (map_value_to_height_threshold 1536 3); [lia|].
    vm_compute. discriminate.
  - intros H.
    apply (map_value_to_height_threshold 1535 3) in H; [|lia].
    vm_compute in H. apply H. reflexivity.
Defined.

(** X2.  A brighter reading never gets a lower column. *)
Theorem map_value_to_height_monotone :
  forall a b : Q,
    (a <= b)%Q -> map_value_to_height a <= map_value_to_height b.
Proof.
  intros a b H. rewrite !map_value_to_height_floor.
  assert (Hf : Qfloor (a / LIGHT_STEP) <= Qfloor (b / LIGHT_STEP)).
  { apply Qfloor_resp_le. unfold Qdiv.
    apply Qmult_le_compat_r; [exact H|discriminate]. }
  clear H. revert Hf.
  generalize (Qfloor (a / LIGHT_STEP)) (Qfloor (b / LIGHT_STEP)).
  intros x y Hf. lia.
Qed.

Lemma map_value_to_height_monotone_witness :
  map_value_to_height (1 # 3) <= map_value_to_height 4000.
Proof.
  apply map_value_to_height_monotone. vm_compute. discriminate.
Defined.

(** ** What a refresh of the display lights *)

Lemma in_column_points (col_idx : nat) (height x y : Z) :
  In (x, y) (column_points col_idx height) <->
  x = Z.of_nat col_idx /\ 7 - height <= y <= 7.
Proof.
  unfold column_points. rewrite in_map_iff. split.
  - intros (row & Hp & Hr). apply in_seq in Hr.
    pose proof (f_equal fst Hp) as Hx. pose proof (f_equal snd Hp) as Hy.
    cbn [fst snd] in Hx, Hy. lia.
  - intros (Hx & Hy). exists (Z.to_nat (7 - y)). split.
    + f_equal; lia.
    + apply in_seq. lia.
Qed.

Lemma in_enumerate (l : list Z) (a i : nat) (h : Z) :
  In (i, h) (combine (List.seq a (length l)) l) <->
  (a <= i)%nat /\ nth_error l (i - a) = Some h.
Proof.
  revert a. induction l as [|x l IH]; intros a; cbn [length List.seq combine].
  - split; [intros []|]. intros [_ H]. destruct (i - a)%nat; discriminate.
  - cbn [In]. rewrite IH. split.
    + intros [H|[H1 H2]].
      * injection H as -> ->. rewrite Nat.sub_diag. split; [lia|reflexivity].
      * split; [lia|]. replace (i - a)%nat with (S (i - S a)) by lia.
        exact H2.
    + intros [H1 H2]. destruct (Nat.eq_dec i a) as [->|Hne].
      * left. rewrite Nat.sub_diag in H2. cbn in H2. congruence.
      * right. split; [lia|].
        replace (i - a)%nat with (S (i - S a)) in H2 by lia. exact H2.
Qed.

Lemma in_drawn_points (columns : list Z) (x y : Z) :
  In (x, y) (drawn_points columns) <->
  exists (i : nat) (h : Z),
    nth_error columns i = Some h /\ x = Z.of_nat i /\ 7 - h <= y <= 7.
Proof.
  unfold drawn_points. rewrite in_flat_map. split.
  - intros ([i h] & Hin & Hp). apply in_enumerate in Hin.
    rewrite Nat.sub_0_r in Hin. cbn [fst snd] in Hp.
    apply in_column_points in Hp. exists i, h. tauto.
  - intros (i & h & Hn & Hx & Hy). exists (i, h). split.
    + apply in_enumerate. rewrite Nat.sub_0_r. split; [lia|exact Hn].
    + cbn [fst snd]. apply in_column_points. tauto.
Qed.

(** X3.  A refresh lights the point [(x, y)] exactly when the history has
    an entry [h] at index [x] and [y] lies between [7 - h] and 7: every
    column is filled from the bottom row upwards with [h + 1] points, so a
    column of height 0 still shows one point.  Along every run from
    start-up all the points of a refresh lie on the 8 by 8 display. *)
Theorem refresh_stays_on_display :
  forall (columns : list Z),
    (forall x y,
       In (x, y) (drawn_points columns) <->
       exists (i : nat) (h : Z),
         nth_error columns i = Some h /\ x = Z.of_nat i /\ 7 - h <= y <= 7)
    /\ (forall i h,
          nth_error columns i = Some h -> 0 <= h ->
          length (column_points i h) = S (Z.to_nat h))
    /\ (history_ok columns ->
        Forall (fun p => 0 <= fst p <= 7 /\ 0 <= snd p <= 7)
          (drawn_points columns))
    /\ (forall evs e m,
          Forall (fun p => 0 <= fst p <= 7 /\ 0 <= snd p <= 7)
            (drawn_points
               (matrix_columns (globals (run int evs (boot e m)))))).
Proof.
  intros columns.
  assert (Hok : forall cols,
            history_ok cols ->
            Forall (fun p => 0 <= fst p <= 7 /\ 0 <= snd p <= 7)
              (drawn_points cols)).
  { intros cols [Hf Hl]. apply Forall_forall. intros [x y] Hin.
    apply in_drawn_points in Hin. destruct Hin as (i & h & Hn & Hx & Hy).
    assert (Hi : (i < length cols)%nat)
      by (apply nth_error_Some; congruence).
    rewrite Forall_forall in Hf.
    specialize (Hf h (nth_error_In _ _ Hn)). cbn [fst snd]. lia. }
  split; [intros x y; apply in_drawn_points|].
  split.
  { intros i h _ Hh. unfold column_points.
    rewrite length_map, length_seq. lia. }
  split; [apply Hok|].
  intros evs e m. apply Hok, run_history_ok. rewrite boot_history.
  split; [constructor|cbn; lia].
Qed.

(** ** One invocation of the packet processor *)

Lemma log_master_data_queue (e : io) (ip : string) (v : Z) (s : state) :
  packet_queue (log_master_data e ip v s) = packet_queue s.
Proof.
  unfold log_master_data. destruct (Qlt_bool _ _); [reflexivity|]. cbn.
  destruct (log_writer s); [destruct (raises e F_writerow)|]; reflexivity.
Qed.

Lemma process_record_queue (e : io) (message : string) (addr : address)
    (s : state) :
  packet_queue (snd (process_record int e message addr s)) = packet_queue s.
Proof.
  unfold process_record.
  destruct (3 <=? _)%nat; [|reflexivity].
  destruct (int (nth 0 _ _)) as [flag|]; [|reflexivity].
  destruct (int (nth 1 _ _)) as [v|]; [|reflexivity].
  destruct (flag =? 1); [apply log_master_data_queue|reflexivity].
Qed.

Lemma process_loop_queue (n i : nat) (e : nat -> io) (s : state) :
  exists k, (k <= n)%nat
            /\ packet_queue (snd (process_loop int n i e s)) =
               skipn k (packet_queue s).
Proof.
  revert i s. induction n as [|n IH]; intros i s.
  - exists 0%nat. split; [lia|reflexivity].
  - destruct (packet_queue s) as [|[message addr] rest] eqn:Hq.
    + exists 0%nat. split; [lia|]. cbn [process_loop]. rewrite Hq.
      cbn. exact Hq.
    + rewrite (process_loop_head int n i e s message addr rest Hq).
      pose proof (process_record_queue (e i) message addr
                    (set_packet_queue rest s)) as Hr.
      destruct (process_record int (e i) message addr
                  (set_packet_queue rest s)) as [[|] s1]; cbn [snd] in Hr.
      * destruct (IH (S i) s1) as (k & Hk & Hs).
        exists (S k). split; [lia|]. rewrite Hs, Hr. reflexivity.
      * exists 1%nat. split; [lia|]. cbn [snd skipn]. exact Hr.
Qed.

(** X4.  One invocation of [process_packets] never raises, takes at most
    100 records from the head of the queue and leaves the rest of the
    queue as it was, in order. *)
Theorem process_packets_takes_a_prefix :
  forall (e : nat -> io) (s : state),
    fst (process_packets int e s) = Returned
    /\ exists k,
         (k <= 100)%nat
         /\ packet_queue (snd (process_packets int e s)) =
            skipn k (packet_queue s).
Proof.
  intros e s. unfold process_packets, try_except.
  destruct (process_loop_queue 100 0 e s) as (k & Hk & Hs).
  destruct (process_loop int 100 0 e s) as [[|] s1]; cbn [fst snd] in *.
  - split; [reflexivity|]. exists k. auto.
  - split; [reflexivity|]. exists k. auto.
Qed.

Lemma process_record_decodable (e : io) (r : string * address) (s : state) :
  decodable int r ->
  fst (process_record int e (fst r) (snd r) s) = Returned.
Proof.
  intros (H3 & H0 & H1). unfold process_record.
  destruct (Nat.leb_spec 3 (length (split ","%char (fst r)))); [|lia].
  destruct (int (nth 0 _ _)) as [flag|]; [|congruence].
  destruct (int (nth 1 _ _)) as [v|]; [|congruence].
  destruct (flag =? 1); reflexivity.
Qed.

Lemma process_loop_decodable (n i : nat) (e : nat -> io) (s : state) :
  Forall (decodable int) (packet_queue s) ->
  fst (process_loop int n i e s) = Returned
  /\ packet_queue (snd (process_loop int n i e s)) =
     skipn n (packet_queue s).
Proof.
  revert i s. induction n as [|n IH]; intros i s Hall.
  - split; reflexivity.
  - destruct (packet_queue s) as [|[message addr] rest] eqn:Hq.
    + cbn [process_loop]. rewrite Hq. cbn. auto.
    + rewrite (process_loop_head int n i e s message addr rest Hq).
      inversion Hall as [|r l Hr Hrest]; subst.
      pose proof (process_record_decodable (e i) (message, addr)
                    (set_packet_queue rest s) Hr) as Hret.
      pose proof (process_record_queue (e i) message addr
                    (set_packet_queue rest s)) as Hrq.
      cbn [fst snd] in Hret.
      destruct (process_record int (e i) message addr
                  (set_packet_queue rest s)) as [o s1].
      cbn [fst snd] in Hret, Hrq. subst o.
      cbn [packet_queue set_packet_queue] in Hrq.
      destruct (IH (S i) s1) as [H1 H2]; [rewrite Hrq; exact Hrest|].
      split; [exact H1|]. rewrite H2, Hrq. reflexivity.
Qed.


Lemma process_record_not_master (e : io) (r : string * address) (s : state) :
  not_master int r ->
  process_record int e (fst r) (snd r) s = (Returned, s).
Proof.
  intros (H3 & (flag & H0 & Hf) & H1). unfold process_record.
  destruct (Nat.leb_spec 3 (length (split ","%char (fst r)))); [|lia].
  rewrite H0.
  destruct (int (nth 1 _ _)) as [v|]; [|congruence].
  destruct (Z.eqb_spec flag 1); [contradiction|reflexivity].
Qed.

Lemma process_loop_not_master (n i : nat) (e : nat -> io) (s : state) :
  Forall (not_master int) (packet_queue s) ->
  fst (process_loop int n i e s) = Returned
  /\ forall q, set_packet_queue q (snd (process_loop int n i e s)) =
               set_packet_queue q s.
Proof.
  revert i s. induction n as [|n IH]; intros i s Hall.
  - split; reflexivity.
  - destruct (packet_queue s) as [|[message addr] rest] eqn:Hq.
    + cbn [process_loop]. rewrite Hq. cbn. auto.
    + rewrite (process_loop_head int n i e s message addr rest Hq).
      inversion Hall as [|r l Hr Hrest]; subst.
      pose proof (process_record_not_master (e i) (message, addr)
                    (set_packet_queue rest s) Hr) as Hrec.
      cbn [fst snd] in Hrec. rewrite Hrec.
      destruct (IH (S i) (set_packet_queue rest s)) as [H1 H2];
        [exact Hrest|].
      split; [exact H1|]. intros q. rewrite H2. reflexivity.
Qed.

(** X6.  When every queued record has at least three fields, a first
    field that reads as a number other than 1 and a second field that
    [int] accepts, one invocation takes the first hundred of them from the
    queue and leaves no other trace: nothing is accumulated, logged,
    counted or printed, and the throttle state is as before. *)
Theorem process_packets_ignores_other_devices :
  forall (e : nat -> io) (s : state),
    Forall (not_master int) (packet_queue s) ->
    fst (process_packets int e s) = Returned
    /\ packet_queue (snd (process_packets int e s)) =
       skipn 100 (packet_queue s)
    /\ forall q, set_packet_queue q (snd (process_packets int e s)) =
                 set_packet_queue q s.
Proof.
  intros e s Hall.
  assert (Hdec : Forall (decodable int) (packet_queue s)).
  { eapply Forall_impl; [|exact Hall].
    intros r (H3 & (flag & H0 & _) & H1). split; [exact H3|].
    split; [congruence|exact H1]. }
  destruct (process_loop_decodable 100 0 e s Hdec) as [Hr Hq].
  destruct (process_loop_not_master 100 0 e s Hall) as [_ Hs].
  unfold process_packets, try_except.
  destruct (process_loop int 100 0 e s) as [o s1]. cbn [fst snd] in *.
  subst o. cbn [fst snd]. auto.
Qed.

(** ** What the log can and cannot change *)

Lemma log_master_data_ingest (e e' : io) (ip : string) (v : Z)
    (s s' : state) :
  time_time e = time_time e' ->
  ingest_view s = ingest_view s' ->
  ingest_view (log_master_data e ip v s) =
  ingest_view (log_master_data e' ip v s').
Proof.
  intros Ht Hv. unfold ingest_view in Hv.
  injection Hv as Hq Ha Hc Hl.
  unfold log_master_data. rewrite Ht, Hl.
  destruct (Qlt_bool _ _).
  - unfold ingest_view. congruence.
  - cbn.
    destruct (log_writer s); [destruct (raises e F_writerow)|];
      (destruct (log_writer s'); [destruct (raises e' F_writerow)|]);
      unfold ingest_view; cbn; congruence.
Qed.

Lemma process_record_ingest (e e' : io) (message : string) (addr : address)
    (s s' : state) :
  time_time e = time_time e' ->
  ingest_view s = ingest_view s' ->
  fst (process_record int e message addr s) =
  fst (process_record int e' message addr s')
  /\ ingest_view (snd (process_record int e message addr s)) =
     ingest_view (snd (process_record int e' message addr s')).
Proof.
  intros Ht Hv. unfold process_record.
  destruct (3 <=? _)%nat; [|auto].
  destruct (int (nth 0 _ _)) as [flag|]; [|auto].
  destruct (int (nth 1 _ _)) as [v|]; [|auto].
  destruct (flag =? 1); [|auto].
  split; [reflexivity|]. apply log_master_data_ingest; assumption.
Qed.

Lemma process_loop_ingest (n i : nat) (e e' : nat -> io) (s s' : state) :
  (forall j, time_time (e j) = time_time (e' j)) ->
  ingest_view s = ingest_view s' ->
  fst (process_loop int n i e s) = fst (process_loop int n i e' s')
  /\ ingest_view (snd (process_loop int n i e s)) =
     ingest_view (snd (process_loop int n i e' s')).
Proof.
  intros Ht. revert i s s'. induction n as [|n IH]; intros i s s' Hv.
  - split; [reflexivity|exact Hv].
  - assert (Hq : packet_queue s = packet_queue s')
      by (unfold ingest_view in Hv; congruence).
    destruct (packet_queue s) as [|[message addr] rest] eqn:E.
    + cbn [process_loop]. rewrite E, <- Hq. split; [reflexivity|exact Hv].
    + rewrite (process_loop_head int n i e s message addr rest E).
      rewrite (process_loop_head int n i e' s' message addr rest (eq_sym Hq)).
      assert (Hv1 : ingest_view (set_packet_queue rest s) =
                    ingest_view (set_packet_queue rest s')).
      { unfold ingest_view in *. cbn. congruence. }
      destruct (process_record_ingest (e i) (e' i) message addr _ _
                  (Ht i) Hv1) as [Ho Hs].
      destruct (process_record int (e i) message addr
                  (set_packet_queue rest s)) as [o s1].
      destruct (process_record int (e' i) message addr
                  (set_packet_queue rest s')) as [o' s1'].
      cbn [fst snd] in Ho, Hs. subst o'.
      destruct o; [apply IH; exact Hs|]. split; [reflexivity|exact Hs].
Qed.

(** X7.  Which records an invocation takes and which readings it accepts
    depends on the queue, the throttle state and the clock only: with the
    same clock values, two invocations that start with the same queue,
    accumulator, counter and last-accepted time end with the same ones,
    whether or not a log is open and whichever writes raise. *)
Theorem ingestion_independent_of_log :
  forall (e e' : nat -> io) (s s' : state),
    (forall j, time_time (e j) = time_time (e' j)) ->
    ingest_view s = ingest_view s' ->
    ingest_view (snd (process_packets int e s)) =
    ingest_view (snd (process_packets int e' s')).
Proof.
  intros e e' s s' Ht Hv.
  destruct (process_loop_ingest 100 0 e e' s s' Ht Hv) as [Ho Hs].
  unfold process_packets, try_except.
  destruct (process_loop int 100 0 e s) as [o s1].
  destruct (process_loop int 100 0 e' s') as [o' s1'].
  cbn [fst snd] in Ho, Hs. subst o'. destruct o; exact Hs.
Qed.

Lemma data_values_app (l1 l2 : list csv_row) :
  data_values (l1 ++ l2) = data_values l1 ++ data_values l2.
Proof. apply flat_map_app. Qed.

(** The rows and accumulator entries that one record adds when the log is
    open and its write does not raise. *)
Lemma process_record_rows (e : io) (message : string) (addr : address)
    (s : state) (rows : list csv_row) :
  log_writer s = Some rows ->
  raises e F_writerow = false ->
  exists added,
    log_writer (snd (process_record int e message addr s)) =
      Some (rows ++ added)
    /\ light_value_accumulator (snd (process_record int e message addr s)) =
       light_value_accumulator s ++ data_values added
    /\ packet_count (snd (process_record int e message addr s)) =
       packet_count s + Z.of_nat (length added)
    /\ length (data_values added) = length added.
Proof.
  intros Hw Hr.
  assert (Hnone : exists added,
            log_writer s = Some (rows ++ added)
            /\ light_value_accumulator s =
               light_value_accumulator s ++ data_values added
            /\ packet_count s = packet_count s + Z.of_nat (length added)
            /\ length (data_values added) = length added).
  { exists []. cbn. rewrite !app_nil_r. repeat split; [exact Hw|lia]. }
  unfold process_record.
  destruct (3 <=? _)%nat; [|exact Hnone].
  destruct (int (nth 0 _ _)) as [flag|]; [|exact Hnone].
  destruct (int (nth 1 _ _)) as [v|]; [|exact Hnone].
  destruct (flag =? 1); [|exact Hnone]. cbn [snd].
  unfold log_master_data. destruct (Qlt_bool _ _); [exact Hnone|].
  cbn. rewrite Hw, Hr. cbn.
  exists [Data (datetime_now e) (fst addr) v]. cbn.
  repeat split; lia.
Qed.

Lemma process_loop_rows (n i : nat) (e : nat -> io) (s : state)
    (rows : list csv_row) :
  (forall j, raises (e j) F_writerow = false) ->
  log_writer s = Some rows ->
  exists added,
    log_writer (snd (process_loop int n i e s)) = Some (rows ++ added)
    /\ light_value_accumulator (snd (process_loop int n i e s)) =
       light_value_accumulator s ++ data_values added
    /\ packet_count (snd (process_loop int n i e s)) =
       packet_count s + Z.of_nat (length added)
    /\ length (data_values added) = length added.
Proof.
  intros Hr. revert i s rows. induction n as [|n IH]; intros i s rows Hw.
  - exists []. cbn. rewrite !app_nil_r. repeat split; [exact Hw|lia].
  - destruct (packet_queue s) as [|[message addr] rest] eqn:Hq.
    + exists []. cbn [process_loop]. rewrite Hq. cbn. rewrite !app_nil_r.
      repeat split; [exact Hw|lia].
    + rewrite (process_loop_head int n i e s message addr rest Hq).
      destruct (process_record_rows (e i) message addr
                  (set_packet_queue rest s) rows Hw (Hr i))
        as (a1 & Hw1 & Ha1 & Hc1 & Hl1).
      destruct (process_record int (e i) message addr
                  (set_packet_queue rest s)) as [[|] s1];
        cbn [snd] in Hw1, Ha1, Hc1;
        cbn [light_value_accumulator packet_count set_packet_queue]
          in Ha1, Hc1.
      * destruct (IH (S i) s1 (rows ++ a1) Hw1)
          as (a2 & Hw2 & Ha2 & Hc2 & Hl2).
        exists (a1 ++ a2).
        rewrite Hw2, Ha2, Hc2, Ha1, Hc1, data_values_app, !length_app,
          <- !app_assoc.
        repeat split; lia.
      * exists a1. cbn [snd]. repeat split; assumption.
Qed.

(** X8.  While the log is open and no write raises, one invocation only
    appends to the log, and the rows it appends are data rows that carry,
    in order, exactly the values it appends to the accumulator; the
    counter grows by their number. *)
Theorem rows_match_accepted_readings :
  forall (e : nat -> io) (s : state) (rows : list csv_row),
    (forall j, raises (e j) F_writerow = false) ->
    log_writer s = Some rows ->
    exists added,
      log_writer (snd (process_packets int e s)) = Some (rows ++ added)
      /\ light_value_accumulator (snd (process_packets int e s)) =
         light_value_accumulator s ++ data_values added
      /\ packet_count (snd (process_packets int e s)) =
         packet_count s + Z.of_nat (length added)
      /\ length (data_values added) = length added.
Proof.
  intros e s rows Hr Hw.
  destruct (process_loop_rows 100 0 e s rows Hr Hw)
    as (added & H1 & H2 & H3 & H4).
  exists added. unfold process_packets, try_except.
  destruct (process_loop int 100 0 e s) as [[|] s1]; cbn [snd] in *;
    repeat split; assumption.
Qed.

(** ** The throttle over a batch *)

Lemma log_master_data_step (e : io) (ip : string) (v : Z) (s : state) :
  let s' := log_master_data e ip v s in
  (packet_count s' = packet_count s
   /\ last_process_time s' = last_process_time s)
  \/ (packet_count s' = packet_count s + 1
      /\ last_process_time s' = time_time e).
Proof.
  unfold log_master_data. destruct (Qlt_bool _ _); [left; auto|]. right.
  cbn. destruct (log_writer s); [destruct (raises e F_writerow)|]; auto.
Qed.

Lemma process_record_step (e : io) (message : string) (addr : address)
    (s : state) :
  let s' := snd (process_record int e message addr s) in
  (packet_count s' = packet_count s
   /\ last_process_time s' = last_process_time s)
  \/ (packet_count s' = packet_count s + 1
      /\ last_process_time s' = time_time e).
Proof.
  unfold process_record.
  destruct (3 <=? _)%nat; [|left; auto].
  destruct (int (nth 0 _ _)) as [flag|]; [|left; auto].
  destruct (int (nth 1 _ _)) as [v|]; [|left; auto].
  destruct (flag =? 1); [apply log_master_data_step|left; auto].
Qed.

Lemma process_record_throttled (e : io) (message : string) (addr : address)
    (s : state) :
  (time_time e - last_process_time s < DATA_THROTTLE)%Q ->
  snd (process_record int e message addr s) = s.
Proof.
  intros H. unfold process_record.
  destruct (3 <=? _)%nat; [|reflexivity].
  destruct (int (nth 0 _ _)) as [flag|]; [|reflexivity].
  destruct (int (nth 1 _ _)) as [v|]; [|reflexivity].
  destruct (flag =? 1); [|reflexivity].
  cbn [snd]. apply log_master_data_dropped, H.
Qed.

Section Burst.

Variable e : nat -> io.

Hypothesis burst :
  forall j k, (time_time (e j) - time_time (e k) < DATA_THROTTLE)%Q.

Lemma process_loop_after_acceptance (n i k : nat) (s : state) :
  last_process_time s = time_time (e k) ->
  packet_count (snd (process_loop int n i e s)) = packet_count s.
Proof.
  revert i s. induction n as [|n IH]; intros i s Hl; [reflexivity|].
  destruct (packet_queue s) as [|[message addr] rest] eqn:Hq.
  - cbn [process_loop]. rewrite Hq. reflexivity.
  - rewrite (process_loop_head int n i e s message addr rest Hq).
    assert (Hd : snd (process_record int (e i) message addr
                        (set_packet_queue rest s)) = set_packet_queue rest s).
    { apply process_record_throttled.
      cbn [last_process_time set_packet_queue]. rewrite Hl. apply burst. }
    destruct (process_record int (e i) message addr
                (set_packet_queue rest s)) as [[|] s1]; cbn [snd] in Hd;
      subst s1; [|reflexivity].
    rewrite IH; [reflexivity|exact Hl].
Qed.

Lemma process_loop_burst (n i : nat) (s : state) :
  packet_count s <= packet_count (snd (process_loop int n i e s))
    <= packet_count s + 1.
Proof.
  revert i s. induction n as [|n IH]; intros i s; [cbn; lia|].
  destruct (packet_queue s) as [|[message addr] rest] eqn:Hq.
  - cbn [process_loop]. rewrite Hq. cbn. lia.
  - rewrite (process_loop_head int n i e s message addr rest Hq).
    pose proof (process_record_step (e i) message addr
                  (set_packet_queue rest s)) as Hs.
    cbv zeta in Hs.
    destruct (process_record int (e i) message addr
                (set_packet_queue rest s)) as [[|] s1]; cbn [snd] in Hs;
      cbn [packet_count last_process_time set_packet_queue] in Hs.
    + destruct Hs as [[Hc Hl]|[Hc Hl]].
      * specialize (IH (S i) s1). lia.
      * rewrite (process_loop_after_acceptance n (S i) i s1 Hl). lia.
    + cbn [snd]. destruct Hs as [[Hc _]|[Hc _]]; lia.
Qed.

End Burst.

(** X9.  When all the clock readings of one invocation lie less than
    [DATA_THROTTLE] apart, the invocation accepts at most one reading,
    however many master records it takes from the queue. *)
Theorem burst_accepts_at_most_one :
  forall (e : nat -> io) (s : state),
    (forall j k, (time_time (e j) - time_time (e k) < DATA_THROTTLE)%Q) ->
    packet_count s <= packet_count (snd (process_packets int e s))
      <= packet_count s + 1.
Proof.
  intros e s Hb. pose proof (process_loop_burst e Hb 100 0 s) as H.
  unfold process_packets, try_except.
  destruct (process_loop int 100 0 e s) as [[|] s1]; cbn [snd] in *; exact H.
Qed.

(** ** The aggregator between two fires *)


(** X11.  In a fire, a refresh that raises costs nothing but the picture:
    the fire appends the same bucket, empties the accumulator and records
    the same fire time; the trace gets the error message where it would
    have got the drawing of the new history. *)
Theorem refresh_failure_is_isolated :
  forall (e e' : io) (s : state) (mean : Q),
    fire_due e s = true ->
    avg_light (light_value_accumulator s) = Some mean ->
    MATRIX_ENABLED s = true ->
    time_time e' = time_time e ->
    let s1 := matrix_update_iteration e s in
    pipeline_view (matrix_update_iteration e' s) = pipeline_view s1
    /\ effects s1 =
         effects s
         ++ [if raises e F_matrix_draw then
               EPrint "Error updating LED matrix"
             else
               EMatrixDraw
                 (deque_append (map_value_to_height mean)
                    (matrix_columns s))].
Proof.
  intros e e' s mean H Hmean Hm Ht s1.
  assert (H' : fire_due e' s = true) by (unfold fire_due in *; congruence).
  unfold s1, matrix_update_iteration, matrix_update_body, try_except.
  rewrite H, H', Hmean.
  open_actions. rewrite Hm. cbn.
  destruct (raises e F_matrix_draw), (raises e' F_matrix_draw); cbn;
    rewrite Ht; split; reflexivity.
Qed.

(** X19.  A due pass whose division raises leaves every global of the
    pipeline as it was and adds the error message to the trace; as
    [last_matrix_update] has not moved, every later pass is due as well,
    and while the accumulator is the same it raises again. *)
Theorem overflow_is_retried :
  forall (e1 e2 : io) (s : state),
    fire_due e1 s = true ->
    avg_light (light_value_accumulator s) = None ->
    (time_time e1 <= time_time e2)%Q ->
    let s1 := matrix_update_iteration e1 s in
    pipeline_view s1 = pipeline_view s
    /\ effects s1 = effects s ++ [EPrint "Matrix update thread error"]
    /\ fire_due e2 s1 = true
    /\ matrix_update_iteration e2 s1 =
       emit (EPrint "Matrix update thread error") s1.
Proof.
  intros e1 e2 s H Hm Ht s1.
  assert (E : s1 = emit (EPrint "Matrix update thread error") s)
    by (apply matrix_update_iteration_overflow; assumption).
  assert (F : fire_due e2 s1 = true).
  { rewrite E. unfold fire_due in *. cbn [last_matrix_update emit].
    apply Qle_bool_iff in H. apply Qle_bool_iff.
    unfold MATRIX_UPDATE_INTERVAL in *. lra. }
  split; [rewrite E; reflexivity|]. split; [rewrite E; reflexivity|].
  split; [exact F|].
  apply matrix_update_iteration_overflow; [exact F|].
  rewrite E. exact Hm.
Qed.

(** ** The reset broadcast *)

Lemma emits_app (l1 l2 : list effect) (s : state) :
  emits (l1 ++ l2) s = emits l2 (emits l1 s).
Proof. unfold emits. apply fold_left_app. Qed.

Lemma effects_emits (l : list effect) (s : state) :
  effects (emits l s) = effects s ++ l.
Proof.
  revert s. induction l as [|x l IH]; intros s; cbn.
  - rewrite app_nil_r. reflexivity.
  - change (effects (emits l (emit x s)) = effects s ++ x :: l).
    rewrite IH. cbn. rewrite <- app_assoc. reflexivity.
Qed.

(** The loop from round [i] on, when its first failing round, if any, is
    [m] rounds ahead. *)
Lemma send_loop_rounds (e : io) (n i m : nat) (s : state) :
  (m <= n)%nat ->
  (forall j, (i <= j < i + m)%nat -> raises e (F_sendto j) = false) ->
  ((m < n)%nat -> raises e (F_sendto (i + m)) = true) ->
  send_loop e i n s =
    (if (m <? n)%nat then Raised else Returned, emits (broadcasts m) s).
Proof.
  revert i m s. induction n as [|n IH]; intros i m s Hm Hok Hbad.
  - assert (m = 0%nat) by lia. subst m. reflexivity.
  - cbn [send_loop]. unfold seq, raise_when, sleep, exec.
    destruct m as [|m].
    + rewrite Nat.add_0_r in Hbad. rewrite Hbad by lia. reflexivity.
    + rewrite (Hok i) by lia. cbv beta iota zeta.
      rewrite (IH (S i) m); [| lia | intros j Hj; apply Hok; lia
                             | intros Hlt; replace (S i + m)%nat
                                 with (i + S m)%nat by lia;
                               apply Hbad; lia].
      reflexivity.
Qed.

(** X12.  When the socket can be made and no send raises, the broadcast is
    ten times the datagram ["0,0,255,1"], each followed by a sleep of a
    tenth of a second, and nothing else changes.  When the socket cannot
    be made nothing is sent; when round [m] is the first whose send
    raises, exactly [m] datagrams have gone out before the exception. *)
Theorem broadcast_rounds :
  forall (e : io) (s : state),
    (raises e F_socket = true -> send_reset_command e s = (Raised, s))
    /\ (raises e F_socket = false ->
        (forall j, (j < 10)%nat -> raises e (F_sendto j) = false) ->
        send_reset_command e s = (Returned, emits (broadcasts 10) s)
        /\ count_effects is_sendto
             (effects (snd (send_reset_command e s))) =
           (count_effects is_sendto (effects s) + 10)%nat)
    /\ (forall m,
          raises e F_socket = false ->
          (m < 10)%nat ->
          (forall j, (j < m)%nat -> raises e (F_sendto j) = false) ->
          raises e (F_sendto m) = true ->
          send_reset_command e s = (Raised, emits (broadcasts m) s)).
Proof.
  intros e s. unfold send_reset_command, seq, raise_when.
  split; [intros H; rewrite H; reflexivity|]. split.
  - intros H Hok. rewrite H.
    rewrite (send_loop_rounds e 10 0 10 s); [|lia|intros; apply Hok; lia|lia].
    split; [reflexivity|]. cbn [snd Nat.ltb Nat.leb].
    rewrite effects_emits. unfold count_effects.
    rewrite filter_app, length_app. reflexivity.
  - intros m H Hm Hok Hbad. rewrite H.
    rewrite (send_loop_rounds e 10 0 m s);
      [|lia|intros; apply Hok; lia|intros; exact Hbad].
    destruct (Nat.ltb_spec m 10); [reflexivity|lia].
Qed.

Lemma send_reset_command_calm_eq (e : io) (s : state) :
  calm e -> send_reset_command e s = (Returned, emits (broadcasts 10) s).
Proof.
  intros Hc. unfold send_reset_command, seq, raise_when. rewrite Hc.
  rewrite (send_loop_rounds e 10 0 10 s); [reflexivity|lia| |lia].
  intros j _. apply Hc.
Qed.

(** X13.  A reset of the running pipeline in which no call raises does, in
    this order: LED on; join of the listener; close of the log; clear of
    the display; ten broadcasts a tenth of a second apart; three seconds
    of sleep; LED off; five seconds of sleep; clear of the display; start
    of the listener and of the aggregator. *)
Theorem reset_sequence_order :
  forall (e : nat -> io) (s : state) (rows : list csv_row),
    (forall i, calm (e i)) ->
    MATRIX_ENABLED s = true ->
    listening_thread s = Some ListenerThread ->
    log_writer s = Some rows ->
    effects (snd (handle_reset_sequence e s)) =
      effects s
      ++ [ELedOn; EJoin ListenerThread 3 (join_times_out (e 1%nat));
          ECloseFile; EMatrixClear]
      ++ broadcasts 10
      ++ [ESleep 3; ELedOff; ESleep 5; EMatrixClear;
          EStart ListenerThread; EStart MatrixThread].
Proof.
  intros e s rows Hc Hm Hl Hw.
  unfold handle_reset_sequence, try_finally, try_except, seq,
    yellow_led_on, exec.
  unfold stop_multicast_listener, close_log_file, clear_led_matrix,
    try_except, seq, raise_when, exec, print.
  cbn -[send_reset_command start_multicast_listener]. rewrite Hl.
  cbn -[send_reset_command start_multicast_listener]. rewrite Hw.
  cbn -[send_reset_command start_multicast_listener]. rewrite ?(Hc 1%nat).
  cbn -[send_reset_command start_multicast_listener]. rewrite Hm.
  cbn -[send_reset_command start_multicast_listener]. rewrite ?(Hc 2%nat).
  cbn -[send_reset_command start_multicast_listener].
  rewrite send_reset_command_calm_eq by apply Hc.
  unfold sleep, yellow_led_off, exec. cbv beta iota zeta.
  unfold start_multicast_listener, clear_led_matrix, create_new_log_file,
    try_except, seq, raise_when, when, exec, print.
  cbn. rewrite Hm. cbn. rewrite !(Hc 7%nat). cbn. rewrite Hm. cbn.
  rewrite <- !app_assoc. reflexivity.
Qed.

(** ** A reset whose broadcast raises *)

Lemma stopped_view_emit (x : effect) (s : state) :
  is_led_off x = false -> is_start x = false ->
  stopped_view (emit x s) = stopped_view s.
Proof.
  intros H1 H2. unfold stopped_view, count_effects. cbn.
  rewrite !filter_app. cbn. rewrite H1, H2, !app_nil_r. reflexivity.
Qed.

Lemma send_reset_command_outcome (e : io) (s s' : state) :
  fst (send_reset_command e s) = fst (send_reset_command e s').
Proof.
  unfold send_reset_command, seq, raise_when.
  destruct (raises e F_socket); [reflexivity|].
  generalize 0%nat 10%nat. intros i n. revert i s s'.
  induction n as [|n IH]; intros i s s'; [reflexivity|].
  cbn [send_loop]. unfold seq, raise_when, sleep, exec.
  destruct (raises e (F_sendto i)); [reflexivity|]. apply IH.
Qed.

Lemma send_loop_effects (e : io) (n i : nat) (s : state) :
  exists l, effects (snd (send_loop e i n s)) = effects s ++ l.
Proof.
  revert i s. induction n as [|n IH]; intros i s.
  - exists []. cbn. rewrite app_nil_r. reflexivity.
  - cbn [send_loop]. unfold seq, raise_when, sleep, exec.
    destruct (raises e (F_sendto i)).
    + exists []. cbn. rewrite app_nil_r. reflexivity.
    + cbv beta iota zeta.
      destruct (IH (S i)
                  (emit (ESleep (1 # 10)) (emit (ESendto "0,0,255,1") s)))
        as (l & Hl).
      eexists. rewrite Hl. cbn. rewrite <- !app_assoc. reflexivity.
Qed.

Lemma send_reset_command_effects (e : io) (s : state) :
  exists l, effects (snd (send_reset_command e s)) = effects s ++ l.
Proof.
  unfold send_reset_command, seq, raise_when.
  destruct (raises e F_socket).
  - exists []. cbn. rewrite app_nil_r. reflexivity.
  - apply send_loop_effects.
Qed.

Lemma stop_multicast_listener_stopped (e : io) (s : state) :
  fst (stop_multicast_listener e s) = Returned
  /\ (exists l,
        effects (snd (stop_multicast_listener e s)) = effects s ++ l)
  /\ stopped_view (snd (stop_multicast_listener e s)) =
     (true, None, None,
      count_effects is_led_off (effects s),
      count_effects is_start (effects s)).
Proof.
  unfold stopped_view, count_effects.
  open_actions. world_cases; try congruence;
    (split; [reflexivity|]);
    (split; [eexists; rewrite <- ?app_assoc; try reflexivity;
             symmetry; apply app_nil_r|]);
    rewrite ?filter_app; cbn; rewrite ?app_nil_r; reflexivity.
Qed.

Lemma clear_led_matrix_stopped (e : io) (s : state) :
  fst (clear_led_matrix e s) = Returned
  /\ (exists l, effects (snd (clear_led_matrix e s)) = effects s ++ l)
  /\ stopped_view (snd (clear_led_matrix e s)) = stopped_view s.
Proof.
  rewrite clear_led_matrix_eq. cbn [fst snd]. split; [reflexivity|].
  destruct (negb (MATRIX_ENABLED s)).
  - split; [exists []; rewrite app_nil_r|]; reflexivity.
  - destruct (raises e F_matrix_clear).
    + split; [eexists; reflexivity|].
      apply stopped_view_emit; reflexivity.
    + split; [eexists; reflexivity|].
      change (stopped_view (emit EMatrixClear s) = stopped_view s).
      apply stopped_view_emit; reflexivity.
Qed.

(** X14.  When the broadcast of a reset raises, the handler prints the
    error and the sequence ends without restarting anything: the stop flag
    stays up, no listener and no log exist, no thread is started and the
    LED, lit at the start of the sequence, is not turned off; only
    [reset_in_progress] is cleared, so that the next press can start a new
    reset. *)
Theorem failed_broadcast_leaves_pipeline_stopped :
  forall (e : nat -> io) (s : state),
    fst (send_reset_command (e 3%nat) s) = Raised ->
    let r := handle_reset_sequence e s in
    fst r = Returned
    /\ reset_in_progress (snd r) = false
    /\ stop_listening (snd r) = true
    /\ listening_thread (snd r) = None
    /\ log_writer (snd r) = None
    /\ count_effects is_led_off (effects (snd r)) =
       count_effects is_led_off (effects s)
    /\ count_effects is_start (effects (snd r)) =
       count_effects is_start (effects s)
    /\ exists l, effects (snd r) =
                 effects s ++ ELedOn :: l ++ [EPrint "Error during reset"].
Proof.
  intros e s Hsend r.
  set (s0 := emit ELedOn s).
  assert (H0 : stopped_view s0 = stopped_view s)
    by (apply stopped_view_emit; reflexivity).
  destruct (stop_multicast_listener_stopped (e 1%nat) s0)
    as (R1 & (l1 & E1) & V1).
  destruct (clear_led_matrix_stopped (e 2%nat)
              (snd (stop_multicast_listener (e 1%nat) s0)))
    as (R2 & (l2 & E2) & V2).
  destruct (send_reset_command_effects (e 3%nat)
              (snd (clear_led_matrix (e 2%nat)
                      (snd (stop_multicast_listener (e 1%nat) s0)))))
    as (l3 & E3).
  pose proof (send_reset_command_preserves stopped_view (e 3%nat)
                (fun p t => stopped_view_emit (ESendto p) t eq_refl eq_refl)
                (fun d t => stopped_view_emit (ESleep d) t eq_refl eq_refl)
                (snd (clear_led_matrix (e 2%nat)
                        (snd (stop_multicast_listener (e 1%nat) s0)))))
    as V3.
  pose proof (send_reset_command_outcome (e 3%nat)
                (snd (clear_led_matrix (e 2%nat)
                        (snd (stop_multicast_listener (e 1%nat) s0)))) s)
    as R3.
  rewrite Hsend in R3.
  unfold r, handle_reset_sequence, try_finally, try_except, seq,
    yellow_led_on, print, exec.
  fold s0.
  destruct (stop_multicast_listener (e 1%nat) s0) as [o1 s1].
  cbn [fst snd] in *. subst o1.
  destruct (clear_led_matrix (e 2%nat) s1) as [o2 s2].
  cbn [fst snd] in *. subst o2.
  destruct (send_reset_command (e 3%nat) s2) as [o3 s3].
  cbn [fst snd] in *. subst o3. cbn [fst snd].
  assert (V : stopped_view s3 =
              (true, None, None,
               count_effects is_led_off (effects s),
               count_effects is_start (effects s))).
  { rewrite V3, V2, V1.
    pose proof (f_equal (fun v => snd (fst v)) H0) as Hoff.
    pose proof (f_equal snd H0) as Hstart.
    cbn [stopped_view fst snd] in Hoff, Hstart.
    rewrite Hoff, Hstart. reflexivity. }
  pose proof (stopped_view_emit (EPrint "Error during reset") s3
                eq_refl eq_refl) as Vp.
  rewrite V in Vp.
  pose proof (f_equal (fun v => fst (fst (fst (fst v)))) Vp) as Hstop.
  pose proof (f_equal (fun v => snd (fst (fst (fst v)))) Vp) as Hthread.
  pose proof (f_equal (fun v => snd (fst (fst v))) Vp) as Hlog.
  pose proof (f_equal (fun v => snd (fst v)) Vp) as Hoff.
  pose proof (f_equal snd Vp) as Hstart.
  cbn [stopped_view fst snd] in Hstop, Hthread, Hlog, Hoff, Hstart.
  repeat (split; [first [reflexivity | assumption]|]).
  exists (l1 ++ l2 ++ l3). cbn [effects emit set_reset_in_progress].
  rewrite E3, E2, E1. unfold s0. cbn [effects emit].
  rewrite <- !app_assoc. reflexivity.
Qed.

(** ** Stopping twice, and shutting down *)

(** X15.  Stopping a pipeline that is already stopped does nothing: no
    second join, no second close, no change of any global. *)
Theorem stop_twice_is_stop_once :
  forall (e e' : io) (s : state),
    stop_multicast_listener e' (snd (stop_multicast_listener e s)) =
    (Returned, snd (stop_multicast_listener e s)).
Proof.
  intros e e' s. open_actions. world_cases; try congruence; reflexivity.
Qed.

(** X16.  The shutdown of [main] never raises; it leaves the stop flag up,
    no listener handle and no open log, turns the LED off once and starts
    no thread; with the display enabled and a clear call that does not
    raise it also leaves the history and the accumulator empty. *)
Theorem shutdown_stops_and_closes :
  forall (e : io) (s : state),
    let r := main_finally e s in
    fst r = Returned
    /\ stop_listening (snd r) = true
    /\ listening_thread (snd r) = None
    /\ log_writer (snd r) = None
    /\ count_effects is_led_off (effects (snd r)) =
       S (count_effects is_led_off (effects s))
    /\ count_effects is_start (effects (snd r)) =
       count_effects is_start (effects s)
    /\ (MATRIX_ENABLED s = true ->
        raises e F_matrix_clear = false ->
        matrix_columns (snd r) = []
        /\ light_value_accumulator (snd r) = []).
Proof.
  intros e s r. unfold r, count_effects. open_actions.
  world_cases; try congruence;
    rewrite ?filter_app; cbn; rewrite ?app_nil_r, ?length_app; cbn;
    repeat split; try reflexivity; try lia; try congruence; intros;
    try congruence; try discriminate; auto.
Qed.

(** ** Starting needs a log *)

(** X17.  The start step raises exactly when the log file cannot be opened
    or its header cannot be written, and then it starts no thread and
    leaves [listening_thread] as it was; when it returns, the listener has
    been started and the open log holds the header and nothing else. *)
Theorem start_needs_a_log :
  forall (e : io) (s : state),
    let r := start_multicast_listener e s in
    (fst r = Raised <->
     raises e F_open = true \/ raises e F_writerow = true)
    /\ (fst r = Raised ->
        listening_thread (snd r) = listening_thread s
        /\ count_effects is_start (effects (snd r)) =
           count_effects is_start (effects s))
    /\ (fst r = Returned ->
        listening_thread (snd r) = Some ListenerThread
        /\ log_writer (snd r) = Some [Header]
        /\ count_effects is_start (effects (snd r)) =
           (count_effects is_start (effects s)
            + if MATRIX_ENABLED s then 2 else 1)%nat).
Proof.
  intros e s r. unfold r, count_effects. open_actions.
  world_cases; rewrite ?filter_app; cbn; rewrite ?app_nil_r, ?length_app; cbn;
    (split; [split; [intros; auto; discriminate
                    |intros [H|H]; first [reflexivity|discriminate]]|]);
    (split; intros; try discriminate; repeat split; try reflexivity; lia).
Qed.

(** ** The rate of acceptance *)

Lemma log_master_data_rate (e : io) (ip : string) (v : Z) (s : state) :
  let s' := log_master_data e ip v s in
  (inject_Z (packet_count s' - packet_count s) * DATA_THROTTLE <=
   last_process_time s' - last_process_time s)%Q
  /\ packet_count s <= packet_count s'.
Proof.
  unfold log_master_data.
  destruct (Qlt_bool _ _) eqn:E; cbv zeta.
  - rewrite Z.sub_diag. split; [|lia]. unfold DATA_THROTTLE.
    change (inject_Z 0) with 0%Q. lra.
  - apply Qlt_bool_false in E.
    assert (Hc : forall t, packet_count t + 1 - packet_count t = 1)
      by (intros; lia).
    destruct (log_writer _); [destruct (raises e F_writerow)|]; cbn;
      rewrite Hc; (split; [|lia]); unfold DATA_THROTTLE in *;
      change (inject_Z 1) with 1%Q; lra.
Qed.

Lemma process_record_rate (e : io) (message : string) (addr : address)
    (s : state) :
  let s' := snd (process_record int e message addr s) in
  (inject_Z (packet_count s' - packet_count s) * DATA_THROTTLE <=
   last_process_time s' - last_process_time s)%Q
  /\ packet_count s <= packet_count s'.
Proof.
  assert (Hsame : (inject_Z (packet_count s - packet_count s) * DATA_THROTTLE
                   <= last_process_time s - last_process_time s)%Q
                  /\ packet_count s <= packet_count s).
  { rewrite Z.sub_diag. split; [|lia]. unfold DATA_THROTTLE.
    change (inject_Z 0) with 0%Q. lra. }
  unfold process_record.
  destruct (3 <=? _)%nat; [|exact Hsame].
  destruct (int (nth 0 _ _)) as [flag|]; [|exact Hsame].
  destruct (int (nth 1 _ _)) as [v|]; [|exact Hsame].
  destruct (flag =? 1); [apply log_master_data_rate|exact Hsame].
Qed.

Lemma rate_compose (c0 c1 c2 : Z) (t0 t1 t2 : Q) :
  (inject_Z (c1 - c0) * DATA_THROTTLE <= t1 - t0)%Q ->
  (inject_Z (c2 - c1) * DATA_THROTTLE <= t2 - t1)%Q ->
  (inject_Z (c2 - c0) * DATA_THROTTLE <= t2 - t0)%Q.
Proof.
  intros H1 H2.
  replace (c2 - c0) with ((c1 - c0) + (c2 - c1)) by lia.
  rewrite inject_Z_plus. unfold DATA_THROTTLE in *.
  set (a := inject_Z (c1 - c0)) in *. set (b := inject_Z (c2 - c1)) in *.
  lra.
Qed.

Lemma process_loop_rate (n i : nat) (e : nat -> io) (s : state) :
  let s' := snd (process_loop int n i e s) in
  (inject_Z (packet_count s' - packet_count s) * DATA_THROTTLE <=
   last_process_time s' - last_process_time s)%Q
  /\ packet_count s <= packet_count s'.
Proof.
  revert i s. induction n as [|n IH]; intros i s; cbv zeta.
  - cbn [process_loop snd]. rewrite Z.sub_diag. split; [|lia].
    unfold DATA_THROTTLE. change (inject_Z 0) with 0%Q. lra.
  - destruct (packet_queue s) as [|[message addr] rest] eqn:Hq.
    + cbn [process_loop]. rewrite Hq. cbn [snd]. rewrite Z.sub_diag.
      split; [|lia]. unfold DATA_THROTTLE. change (inject_Z 0) with 0%Q. lra.
    + rewrite (process_loop_head int n i e s message addr rest Hq).
      pose proof (process_record_rate (e i) message addr
                    (set_packet_queue rest s)) as Hr.
      cbv zeta in Hr.
      cbn [packet_count last_process_time set_packet_queue] in Hr.
      destruct (process_record int (e i) message addr
                  (set_packet_queue rest s)) as [[|] s1]; cbn [snd] in Hr.
      * specialize (IH (S i) s1). cbv zeta in IH.
        destruct Hr as [Hr1 Hr2]. destruct IH as [IH1 IH2].
        split; [|lia]. exact (rate_compose _ _ _ _ _ _ Hr1 IH1).
      * cbn [snd]. exact Hr.
Qed.

(** X18.  Acceptance is rate-limited by the clock: over one invocation,
    whatever the clock readings are, the last-accepted time advances by
    at least [DATA_THROTTLE] for every reading accepted, so [k] accepted
    readings need at least [k] tenths of a second of clock. *)
Theorem acceptance_is_rate_limited :
  forall (e : nat -> io) (s : state),
    let s' := snd (process_packets int e s) in
    packet_count s <= packet_count s'
    /\ (inject_Z (packet_count s' - packet_count s) * DATA_THROTTLE <=
        last_process_time s' - last_process_time s)%Q.
Proof.
  intros e s. cbv zeta.
  pose proof (process_loop_rate 100 0 e s) as H. cbv zeta in H.
  unfold process_packets, try_except.
  destruct (process_loop int 100 0 e s) as [[|] s1]; cbn [snd] in *;
    cbn [packet_count last_process_time emit]; tauto.
Qed.

End MoreProperties.
(** ** The further properties on concrete runs *)

Lemma refresh_stays_on_display_witness :
  drawn_points [0; 2] = [(0, 7); (1, 7); (1, 6); (1, 5)]
  /\ Forall (fun p => 0 <= fst p <= 7 /\ 0 <= snd p <= 7)
       (drawn_points [0; 2]).
Proof.
  split; [reflexivity|].
  destruct (refresh_stays_on_display int_decimal [0; 2]) as (_ & _ & H & _).
  apply H. split; [repeat constructor; lia|cbn; lia].
Defined.


Lemma process_packets_ignores_other_devices_witness :
  let s := globals (run int_decimal
                      [Receive "0,7,0" sender; Receive "2,9,0" other_sender]
                      started) in
  set_packet_queue []
    (snd (process_packets int_decimal (fun _ => at_time 1001) s)) =
  set_packet_queue [] s.
Proof.
  intros s.
  assert (H : Forall (not_master int_decimal) (packet_queue s)).
  { constructor.
    - split; [vm_compute; lia|].
      split; [exists 0; split; [reflexivity|lia]|discriminate].
    - constructor; [|constructor].
      split; [vm_compute; lia|].
      split; [exists 2; split; [reflexivity|lia]|discriminate]. }
  destruct (process_packets_ignores_other_devices int_decimal
              (fun _ => at_time 1001) s H) as (_ & _ & Hs).
  apply Hs.
Defined.

Lemma ingestion_independent_of_log_witness :
  let s := globals (run int_decimal [Receive "1,2048,0,0" sender] started) in
  ingest_view
    (snd (process_packets int_decimal
            (fun _ => failing_at only_writerow 1001) s)) =
  ingest_view
    (snd (process_packets int_decimal (fun _ => at_time 1001)
            (set_log_writer None s))).
Proof.
  intros s.
  apply (ingestion_independent_of_log int_decimal
           (fun _ => failing_at only_writerow 1001)
           (fun _ => at_time 1001) s (set_log_writer None s)).
  - intros j. reflexivity.
  - reflexivity.
Defined.

Lemma rows_match_accepted_readings_witness :
  let s := globals (run int_decimal
                      [Receive "1,2048,0,0" sender;
                       Receive "1,1000,0,0" other_sender] started) in
  let s' := snd (process_packets int_decimal
                   (fun i => at_time (1001 + inject_Z (Z.of_nat i))) s) in
  exists added,
    log_writer s' = Some ([Header] ++ added)
    /\ light_value_accumulator s' =
       light_value_accumulator s ++ data_values added
    /\ packet_count s' = packet_count s + Z.of_nat (length added)
    /\ length (data_values added) = length added.
Proof.
  intros s s'.
  apply (rows_match_accepted_readings int_decimal
           (fun i => at_time (1001 + inject_Z (Z.of_nat i))) s [Header]).
  - intros j. reflexivity.
  - reflexivity.
Defined.

Lemma burst_accepts_at_most_one_witness :
  let s := globals (run int_decimal
                      [Receive "1,2048,0,0" sender;
                       Receive "1,1000,0,0" other_sender] started) in
  packet_count s
    <= packet_count
         (snd (process_packets int_decimal (fun _ => at_time 1001) s))
    <= packet_count s + 1.
Proof.
  intros s.
  apply (burst_accepts_at_most_one int_decimal (fun _ => at_time 1001) s).
  intros j k. vm_compute. reflexivity.
Defined.


Lemma refresh_failure_is_isolated_witness :
  pipeline_view
    (matrix_update_iteration (at_time 1004) (globals started)) =
  pipeline_view
    (matrix_update_iteration (failing_at only_matrix_draw 1004)
       (globals started)).
Proof.
  destruct (refresh_failure_is_isolated (failing_at only_matrix_draw 1004)
              (at_time 1004) (globals started) 0 eq_refl eq_refl eq_refl
              eq_refl)
    as (H & _).
  exact H.
Defined.

Lemma overflow_is_retried_witness :
  let s := globals (run int_decimal (reading huge_reading 1001) started) in
  let s1 := matrix_update_iteration (at_time 1004) s in
  matrix_columns s1 = []
  /\ light_value_accumulator s1 = [2 * 10 ^ 308]
  /\ matrix_update_iteration (at_time 1005) s1 =
     emit (EPrint "Matrix update thread error") s1.
Proof.
  intros s s1.
  split; [vm_compute; reflexivity|]. split; [vm_compute; reflexivity|].
  assert (F : fire_due (at_time 1004) s = true) by (vm_compute; reflexivity).
  assert (M : avg_light (light_value_accumulator s) = None)
    by (vm_compute; reflexivity).
  destruct (overflow_is_retried (at_time 1004) (at_time 1005) s F M)
    as (_ & _ & _ & H).
  - vm_compute. discriminate.
  - exact H.
Defined.

Lemma broadcast_rounds_witness :
  send_reset_command (at_time 1010) (globals started) =
    (Returned, emits (broadcasts 10) (globals started))
  /\ send_reset_command (failing_at only_fifth_send 1010) (globals started) =
       (Raised, emits (broadcasts 4) (globals started)).
Proof.
  split.
  - destruct (broadcast_rounds (at_time 1010) (globals started))
      as (_ & H & _).
    destruct H as (H & _); [reflexivity|intros; reflexivity|exact H].
  - destruct (broadcast_rounds (failing_at only_fifth_send 1010)
                (globals started)) as (_ & _ & H).
    apply (H 4%nat); [reflexivity|lia| |reflexivity].
    intros j Hj.
    destruct j as [|[|[|[|j]]]]; [reflexivity..|lia].
Defined.

Lemma reset_sequence_order_witness :
  effects (snd (handle_reset_sequence (fun _ => at_time 1010)
                  (globals started))) =
    effects (globals started)
    ++ [ELedOn; EJoin ListenerThread 3 false; ECloseFile; EMatrixClear]
    ++ broadcasts 10
    ++ [ESleep 3; ELedOff; ESleep 5; EMatrixClear;
        EStart ListenerThread; EStart MatrixThread].
Proof.
  apply (reset_sequence_order (fun _ => at_time 1010) (globals started)
           [Header]).
  - intros i p. reflexivity.
  - reflexivity.
  - reflexivity.
  - reflexivity.
Defined.

Lemma failed_broadcast_leaves_pipeline_stopped_witness :
  let r := handle_reset_sequence (fun _ => failing_at only_socket 1010)
             (globals started) in
  stop_listening (snd r) = true
  /\ log_writer (snd r) = None
  /\ reset_in_progress (snd r) = false.
Proof.
  intros r.
  destruct (failed_broadcast_leaves_pipeline_stopped
              (fun _ => failing_at only_socket 1010) (globals started)
              eq_refl) as (_ & Hf & Hs & _ & Hw & _).
  split; [exact Hs|]. split; [exact Hw|exact Hf].
Defined.

Lemma shutdown_stops_and_closes_witness :
  let s := globals (run int_decimal
                      (three_readings ++ [MatrixLoop (at_time 1004)]
                       ++ reading "1,700,0" 1005) started) in
  let r := main_finally (at_time 1100) s in
  matrix_columns s = [0]
  /\ light_value_accumulator s = [700]
  /\ matrix_columns (snd r) = []
  /\ light_value_accumulator (snd r) = [].
Proof.
  intros s r. split; [reflexivity|]. split; [reflexivity|].
  destruct (shutdown_stops_and_closes (at_time 1100) s)
    as (_ & _ & _ & _ & _ & _ & H).
  apply H; reflexivity.
Defined.

Lemma start_needs_a_log_witness :
  let r := start_multicast_listener (failing_at only_open 1000)
             (initial_state true) in
  fst r = Raised
  /\ listening_thread (snd r) = None
  /\ count_effects is_start (effects (snd r)) = 0%nat.
Proof.
  intros r.
  destruct (start_needs_a_log (failing_at only_open 1000)
              (initial_state true)) as (Hiff & Hraised & _).
  assert (Hr : fst r = Raised) by (apply Hiff; left; reflexivity).
  destruct (Hraised Hr) as [Ht Hc].
  split; [exact Hr|]. split; [exact Ht|exact Hc].
Defined.
